(** * find_email_addresses.py: the crawl frontier [UrlCollection] and its driver

    A shallow embedding of [src/find_email_addresses.py] (Python 2).

    - The strings of the program are unicode objects: the seed comes from
      argparse with [type=unicode], links and page text from the browser.
      A string is a [list ascii]: a unicode text of characters U+0000 to
      U+00FF.  [lower], [strip] and the NFKC normal form that [urlparse]
      consults are the unicode versions on these characters.  Texts with
      wider characters are outside the embedding.
    - The seed is ASCII, since argparse's [unicode(...)] accepts nothing
      else; so is every address [EMAIL_RE] finds.  [str.format] in the
      constructor and [str(email)] in [add_email] therefore do not raise
      UnicodeEncodeError and are written as plain concatenation and
      identity.
    - [str.find] / [str.rfind] return [option nat]: [None] stands for
      Python's [-1].
    - Exceptions are values of [exn]; code that can raise returns [res].
      Methods that mutate the collection are state transformers that also
      return the (possibly unchanged) collection when they raise.
    - The driver, [requests] and [bs4] are given by what they return or
      raise; a driver call fails with WebDriverException, the exception
      the source's own handlers name.
    - The standard-library module [urlparse] is embedded as well (CPython
      2.7.18, [Lib/urlparse.py]; its memo cache is left out, it does not
      change results). *)

From Stdlib Require Import Ascii String.
From stdpp Require Import base tactics option list gmap strings.

Local Open Scope char_scope.

(** ** Python strings *)

Definition str := list ascii.

Definition py (s : string) : str := list_ascii_of_string s.

(** [c in s] for a one-character [c]. *)
Definition contains (c : ascii) (s : str) : bool := existsb (Ascii.eqb c) s.

(** [s.find(c)] *)
Fixpoint find (c : ascii) (s : str) : option nat :=
  match s with
  | [] => None
  | x :: s' => if Ascii.eqb c x then Some 0 else S <$> find c s'
  end.

(** [s.find(c, start)] *)
Definition find_from (c : ascii) (s : str) (start : nat) : option nat :=
  (fun i => start + i) <$> find c (drop start s).

(** [s.rfind(c)] *)
Fixpoint rfind (c : ascii) (s : str) : option nat :=
  match s with
  | [] => None
  | x :: s' =>
      match rfind c s' with
      | Some i => Some (S i)
      | None => if Ascii.eqb c x then Some 0 else None
      end
  end.

(** [s.startswith(p)] *)
Fixpoint startswith (p s : str) : bool :=
  match p, s with
  | [], _ => true
  | a :: p', b :: s' => Ascii.eqb a b && startswith p' s'
  | _ :: _, [] => false
  end.

(** [s.endswith(p)] *)
Definition endswith (p s : str) : bool := startswith (rev p) (rev s).

(** The letters A to Z. *)
Definition is_upper (c : ascii) : bool :=
  ((65 <=? nat_of_ascii c) && (nat_of_ascii c <=? 90))%nat.

(** The upper-case letters U+00C0 to U+00DE; U+00D7 is the multiplication
    sign. *)
Definition is_upper_latin1 (c : ascii) : bool :=
  ((192 <=? nat_of_ascii c) && (nat_of_ascii c <=? 222)
   && negb (nat_of_ascii c =? 215))%nat.

(** The lower-case letter of an upper-case one is 32 places on; no other
    character below U+0100 has one. *)
Definition lower_char (c : ascii) : ascii :=
  if is_upper c || is_upper_latin1 c
  then ascii_of_nat (nat_of_ascii c + 32)%nat else c.

(** [s.lower()] *)
Definition lower (s : str) : str := map lower_char s.

(** [c.isspace()] for a unicode character: \t, \n, \v, \f, \r, the
    separators U+001C to U+001F, space, U+0085 and U+00A0. *)
Definition is_space (c : ascii) : bool :=
  ((nat_of_ascii c =? 32)
   || ((9 <=? nat_of_ascii c) && (nat_of_ascii c <=? 13))
   || ((28 <=? nat_of_ascii c) && (nat_of_ascii c <=? 31))
   || (nat_of_ascii c =? 133) || (nat_of_ascii c =? 160))%nat.

Fixpoint lstrip (s : str) : str :=
  match s with
  | c :: s' => if is_space c then lstrip s' else s
  | [] => []
  end.

(** [s.strip()] *)
Definition strip (s : str) : str := rev (lstrip (rev (lstrip s))).

(** Truth value of a string-or-None ([if url:], [not url]). *)
Definition truthy (o : option str) : bool :=
  match o with
  | Some (_ :: _) => true
  | _ => false
  end.

(** ** Exceptions *)

Inductive exn : Set :=
| ValueError
| TypeError
| WebDriverException
| ImportError
| FeatureNotFound.       (* bs4: the parser asked for is not installed *)

Inductive res (A : Type) : Type :=
| Ok (a : A)
| Raise (e : exn).
Arguments Ok {A} a.
Arguments Raise {A} e.

Definition res_bind {A B} (m : res A) (k : A -> res B) : res B :=
  match m with
  | Ok a => k a
  | Raise e => Raise e
  end.

Notation "'do' x <- m ; k" := (res_bind m (fun x => k))
  (at level 10, x pattern, m at level 100, k at level 200).

(** ** urlparse (standard library) *)

Module urlparse.

Definition uses_netloc : list str :=
  map py ["ftp"; "http"; "gopher"; "nntp"; "telnet"; "imap"; "wais"; "file";
          "mms"; "https"; "shttp"; "snews"; "prospero"; "rtsp"; "rtspu";
          "rsync"; ""; "svn"; "svn+ssh"; "sftp"; "nfs"; "git"; "git+ssh"]%string.

Definition uses_params : list str :=
  map py ["ftp"; "hdl"; "prospero"; "http"; "imap"; "https"; "shttp"; "rtsp";
          "rtspu"; "sip"; "sips"; "mms"; ""; "sftp"; "tel"]%string.

Definition scheme_chars : str :=
  py "abcdefghijklmnopqrstuvwxyzABCDEFGHIJKLMNOPQRSTUVWXYZ0123456789+-.".

Definition digits : str := py "0123456789".

Definition mem (s : str) (l : list str) : bool := bool_decide (s ∈ l).

Record SplitResult : Type := mkSplit {
  s_scheme : str; s_netloc : str; s_path : str; s_query : str; s_fragment : str
}.

Record ParseResult : Type := mkParse {
  scheme : str; netloc : str; path : str;
  params : str; query : str; fragment : str
}.

(** [url.split(c, 1)] when [c in url]: the parts before and after the first
    [c]. *)
Definition split1 (c : ascii) (url : str) : str * str :=
  match find c url with
  | Some i => (take i url, drop (S i) url)
  | None => (url, [])
  end.

Definition _splitparams (url : str) : str * str :=
  if contains "/" url then
    (* rfind finds a slash here *)
    match find_from ";" url (default 0 (rfind "/" url)) with
    | None => (url, [])
    | Some i => (take i url, drop (S i) url)
    end
  else
    match find ";" url with
    | Some i => (take i url, drop (S i) url)
    | None => (take (length url - 1) url, url)   (* i = -1 *)
    end.

Definition _splitnetloc (url : str) (start : nat) : str * str :=
  let delim :=
    foldl (fun delim c =>
             match find_from c url start with
             | Some wdelim => Nat.min delim wdelim
             | None => delim
             end)
          (length url) ["/"; "?"; "#"] in
  (drop start (take delim url), drop delim url).

(** The netloc "Invalid IPv6 URL" test. *)
Definition bad_brackets (netloc : str) : bool :=
  (contains "[" netloc && negb (contains "]" netloc))
  || (contains "]" netloc && negb (contains "[" netloc)).

(** [unicodedata.normalize('NFKC', c)] for one character below U+0100, as
    code points: fourteen of them have a compatibility form, the others
    are unchanged. *)
Definition nfkc_char (c : ascii) : list N :=
  match N_of_ascii c with
  | 160 => [32]                  (* no-break space *)
  | 168 => [32; 776]             (* diaeresis *)
  | 170 => [97]                  (* feminine ordinal *)
  | 175 => [32; 772]             (* macron *)
  | 178 => [50]                  (* superscript two *)
  | 179 => [51]                  (* superscript three *)
  | 180 => [32; 769]             (* acute accent *)
  | 181 => [956]                 (* micro sign *)
  | 184 => [32; 807]             (* cedilla *)
  | 185 => [49]                  (* superscript one *)
  | 186 => [111]                 (* masculine ordinal *)
  | 188 => [49; 8260; 52]        (* one quarter *)
  | 189 => [49; 8260; 50]        (* one half *)
  | 190 => [51; 8260; 52]        (* three quarters *)
  | n => [n]
  end%N.

(** [unicodedata.normalize('NFKC', s)]: below U+0100 no character combines
    with its neighbour, the normal form is taken character by character. *)
Definition nfkc (s : str) : list N := s ≫= nfkc_char.

(** [s.replace(c, u'')] *)
Definition remove (c : ascii) (s : str) : str :=
  List.filter (fun x => negb (Ascii.eqb x c)) s.

(** [_checknetloc(netloc)], for a unicode netloc. *)
Definition _checknetloc (netloc : str) : res unit :=
  if negb (truthy (Some netloc)) then Ok tt
  else
    let n := remove "@" netloc in   (* ignore characters already included *)
    let n := remove ":" n in        (* but not the surrounding text *)
    let n := remove "#" n in
    let n := remove "?" n in
    let netloc2 := nfkc n in
    if bool_decide (N_of_ascii <$> n = netloc2) then Ok tt
    else if existsb (fun c => bool_decide (N_of_ascii c ∈ netloc2))
              (py "/?#@:")
    then Raise ValueError
    else Ok tt.

(** The tail of [urlsplit], from the netloc test on.  The source repeats
    these lines verbatim in its fast path for [http]. *)
Definition urlsplit_tail (scheme url : str) : res SplitResult :=
  do (netloc, url) <-
     (if bool_decide (take 2 url = py "//") then
        let '(netloc, url) := _splitnetloc url 2 in
        if bad_brackets netloc then Raise ValueError else Ok (netloc, url)
      else Ok ([], url));
  let '(url, fragment) :=
    if contains "#" url then split1 "#" url else (url, []) in
  let '(url, query) :=
    if contains "?" url then split1 "?" url else (url, []) in
  do _ <- _checknetloc netloc;
  Ok (mkSplit scheme netloc url query fragment).

(** [urlsplit(url)] with the default [scheme=''], [allow_fragments=True]. *)
Definition urlsplit (url : str) : res SplitResult :=
  match find ":" url with
  | Some (S i') =>
      let i := S i' in
      if bool_decide (take i url = py "http") then
        urlsplit_tail (lower (take i url)) (drop (S i) url)
      else if forallb (fun c => contains c scheme_chars) (take i url) then
        let rest := drop (S i) url in
        if negb (truthy (Some rest))
           || existsb (fun c => negb (contains c digits)) rest
        then urlsplit_tail (lower (take i url)) rest
        else urlsplit_tail [] url
      else urlsplit_tail [] url
  | _ => urlsplit_tail [] url
  end.

Definition urlparse (url : str) : res ParseResult :=
  do sr <- urlsplit url;
  let '(url, params) :=
    if mem (s_scheme sr) uses_params && contains ";" (s_path sr)
    then _splitparams (s_path sr) else (s_path sr, []) in
  Ok (mkParse (s_scheme sr) (s_netloc sr) url params (s_query sr) (s_fragment sr)).

Definition urlunsplit (scheme netloc url : str) (query fragment : option str)
  : str :=
  let url :=
    if truthy (Some netloc)
       || (truthy (Some scheme) && mem scheme uses_netloc
           && negb (bool_decide (take 2 url = py "//")))
    then
      let url :=
        if truthy (Some url) && negb (bool_decide (take 1 url = py "/"))
        then py "/" ++ url else url in
      py "//" ++ netloc ++ url
    else url in
  let url := if truthy (Some scheme) then scheme ++ py ":" ++ url else url in
  let url := if truthy query then url ++ py "?" ++ default [] query else url in
  let url :=
    if truthy fragment then url ++ py "#" ++ default [] fragment else url in
  url.

Definition urlunparse (scheme netloc url : str)
  (params query fragment : option str) : str :=
  let url :=
    if truthy params then url ++ py ";" ++ default [] params else url in
  urlunsplit scheme netloc url query fragment.

End urlparse.

Import urlparse.


(** ** UrlCollection *)

Record UrlCollection : Type := mkUrlCollection {
  root : str;               (* self.root *)
  base_url : str;           (* self.base_url *)
  seen_urls : gset str;     (* self.seen_urls *)
  work_urls : gset str;     (* self.work_urls *)
  emails : gset str         (* self.emails *)
}.

(** A method that may mutate [self]: the result (or the exception) together
    with the collection as the call leaves it. *)
Definition method (A : Type) : Type := UrlCollection -> res A * UrlCollection.

(** The string [site] as the constructor rewrites it. *)
Definition site_of (site : str) : str :=
  let site := lower (strip site) in
  if startswith (py "http") site then site else py "http" ++ py "://" ++ site.

(** [UrlCollection.__init__] *)
Definition __init__ (site : str) : res UrlCollection :=
  let site := site_of site in
  do parsed <- urlparse site;
  let root := netloc parsed in
  Ok {| root := root;
        base_url := scheme parsed ++ py "://" ++ root;
        seen_urls := {[ site ]};
        work_urls := {[ site ]};
        emails := ∅ |}.

Definition in_root_domain (self : UrlCollection) (url : str) : res bool :=
  do parsed <- urlparse url;
  Ok (endswith (root self) (netloc parsed)).

(** Truth value of [url and self.in_root_domain(url)]. *)
Definition should_parse (self : UrlCollection) (url : option str) : res bool :=
  match url with
  | Some (c :: u) => in_root_domain self (c :: u)
  | _ => Ok false
  end.

(** Truth value of
    [url and (url not in self.seen_urls) and self.in_root_domain(url)]. *)
Definition should_add (self : UrlCollection) (url : option str) : res bool :=
  match url with
  | Some (c :: u) =>
      if bool_decide (c :: u ∉ seen_urls self)
      then in_root_domain self (c :: u)
      else Ok false
  | _ => Ok false
  end.

Definition normalize (self : UrlCollection) (url : option str)
  : res (option str) :=
  match url with
  | Some (c :: u) =>
      let url := c :: u in
      (* fix relative links *)
      let url := if negb (startswith (py "/") url) then url
                 else base_url self ++ url in
      (* normalize *)
      let url := lower url in
      (* is it a web page ? *)
      if negb (startswith (py "http") url) then Ok None
      else
        do parsed <- urlparse url;
        Ok (Some (urlunparse (scheme parsed) (netloc parsed) (path parsed)
                    None None None))
  | _ => Ok None
  end.

Definition add_url (url : option str) : method unit := fun self =>
  match normalize self url with
  | Raise e => (Raise e, self)
  | Ok url =>
      match should_add self url with
      | Raise e => (Raise e, self)
      | Ok false => (Ok tt, self)
      | Ok true =>
          let url := default [] url in
          (Ok tt,
           {| root := root self; base_url := base_url self;
              seen_urls := seen_urls self ∪ {[ url ]};     (* mark as seen *)
              work_urls := work_urls self ∪ {[ url ]};     (* add to work load *)
              emails := emails self |})
      end
  end.

Definition add_email (email : str) : method unit := fun self =>
  (Ok tt,
   {| root := root self; base_url := base_url self;
      seen_urls := seen_urls self; work_urls := work_urls self;
      emails := emails self ∪ {[ email ]} |}).

(** [map(self.add_url, urls)]: the calls in order, stopping at the first one
    that raises. *)
Fixpoint add_urls (urls : list (option str)) : method unit := fun self =>
  match urls with
  | [] => (Ok tt, self)
  | url :: urls =>
      match add_url url self with
      | (Ok _, self) => add_urls urls self
      | (Raise e, self) => (Raise e, self)
      end
  end.

(** ** DriverParser and the crawl *)

(** What the browser shows for one url. *)
Inductive page : Type :=
| NoLoad
    (* driver.get(url) or the readyState wait raised WebDriverException *)
| NoCurrentUrl
    (* the page loaded, then reading driver.current_url raised
       WebDriverException *)
| Page (current_url : option str)
       (* driver.current_url once the page is loaded *)
       (hrefs : list (option str))
       (* what parse_urls yields, its own WebDriverExceptions skipped *)
       (body_emails : option (list str)).
       (* EMAIL_RE.findall on the body; None when reading the body raised
          WebDriverException *)

(** Python values that flow through [reduce] in [main]. *)
Inductive pyval : Type :=
| PNone
| PList (l : list str)
| PSet (s : gset str).

(** [set(x)] *)
Definition py_set (x : pyval) : res (gset str) :=
  match x with
  | PNone => Raise TypeError
  | PList l => Ok (list_to_set l)
  | PSet s => Ok s
  end.

(** [reduce(f, l)] without initial value. *)
Definition reduce (f : pyval -> pyval -> res pyval) (l : list pyval)
  : res pyval :=
  match l with
  | [] => Raise TypeError
  | x :: l => foldl (fun acc y => do a <- acc; f a y) (Ok x) l
  end.

(** The members of an emails value, for comparing it with a set. *)
Definition members (v : pyval) : gset str :=
  match v with
  | PNone => ∅
  | PList l => list_to_set l
  | PSet s => s
  end.

Section Crawl.

(** The web as the browser renders it. *)
Variable web : str -> page.

(** Which element [set.pop()] takes: an index into the set's elements. *)
Variable pick : gset str -> nat.

(** [DriverParser.parse_emails] on the loaded page *)
Definition parse_emails (body_emails : option (list str)) : pyval :=
  match body_emails with
  | Some l => PList l
  | None => PNone        (* except WebDriverException: pass *)
  end.

(** [DriverParser.load_and_parse(uc, url)] *)
Definition load_and_parse (url : str) : method pyval := fun uc =>
  match web url with
  | NoLoad => (Ok (PList []), uc)
  | NoCurrentUrl => (Raise WebDriverException, uc)    (* no handler *)
  | Page current_url hrefs body_emails =>
      (* Drop redirection to outside *)
      match (do n <- normalize uc current_url; should_parse uc n) with
      | Raise e => (Raise e, uc)
      | Ok false => (Ok (PList []), uc)
      | Ok true =>
          (* add to collection all found urls *)
          match add_urls hrefs uc with
          | (Raise e, uc) => (Raise e, uc)
          | (Ok _, uc) =>
              (* return all found emails *)
              (Ok (parse_emails body_emails), uc)
          end
      end
  end.

(** [UrlCollection.next]; [None] is StopIteration. *)
Definition next : method (option str) := fun self =>
  match elements (work_urls self) with
  | [] => (Ok None, self)
  | x :: l =>
      let url := nth (pick (work_urls self) mod length (x :: l)) (x :: l) x in
      (Ok (Some url),
       {| root := root self; base_url := base_url self;
          seen_urls := seen_urls self;
          work_urls := work_urls self ∖ {[ url ]};
          emails := emails self |})
  end.

(** [map(lambda url: dp.load_and_parse(uc, url), uc)]: pull a url, process
    it, pull the next one.  [None] when [fuel] pulls were not enough to
    exhaust the collection. *)
Fixpoint crawl (fuel : nat) : UrlCollection
  -> option (res (list pyval) * UrlCollection) := fun uc =>
  match fuel with
  | 0 => None
  | S fuel =>
      match next uc with
      | (Raise e, uc) => Some (Raise e, uc)
      | (Ok None, uc) => Some (Ok [], uc)
      | (Ok (Some url), uc) =>
          match load_and_parse url uc with
          | (Raise e, uc) => Some (Raise e, uc)
          | (Ok v, uc) =>
              match crawl fuel uc with
              | None => None
              | Some (Raise e, uc) => Some (Raise e, uc)
              | Some (Ok vs, uc) => Some (Ok (v :: vs), uc)
              end
          end
      end
  end.

(** [lambda x, y: set(x).union(set(y))] *)
Definition union_emails (x y : pyval) : res pyval :=
  do sx <- py_set x;
  do sy <- py_set y;
  Ok (PSet (sx ∪ sy)).

End Crawl.

(** [main] from the parsed arguments on, up to the value of [emails], with
    the collection as the crawl left it; printing is left out.
    [DriverParser] is what the call [DriverParser()] gives: the driver,
    known by the web it shows, or the exception of [webdriver.Firefox()]. *)
Definition main (DriverParser : res (str -> page)) (pick : gset str -> nat)
  (fuel : nat) (site : str) : option (res pyval * option UrlCollection) :=
  match __init__ site with
  | Raise e => Some (Raise e, None)
  | Ok uc =>
      match DriverParser with
      | Raise e => Some (Raise e, Some uc)
      | Ok dp =>
          match crawl dp pick fuel uc with
          | None => None
          | Some (Raise e, uc) => Some (Raise e, Some uc)
          | Some (Ok vs, uc) => Some (reduce union_emails vs, Some uc)
          end
      end
  end.

(** ** Auxiliary functions used to state the properties *)

(** *** Cutting strings *)

(** The part of [s] before the first character satisfying [D], and the
    part from that character on. *)
Fixpoint before (D : ascii -> bool) (s : str) : str :=
  match s with
  | [] => []
  | x :: s' => if D x then [] else x :: before D s'
  end.

Fixpoint from (D : ascii -> bool) (s : str) : str :=
  match s with
  | [] => []
  | x :: s' => if D x then s else from D s'
  end.

(** The characters that end a netloc, and those that end a path. *)
Definition is_delim3 (c : ascii) : bool :=
  Ascii.eqb "/" c || Ascii.eqb "?" c || Ascii.eqb "#" c.

Definition is_delim2 (c : ascii) : bool :=
  Ascii.eqb "#" c || Ascii.eqb "?" c.

(** *** The parts [urlparse] finds *)

(** Query and fragment as [urlsplit_tail] cuts them off. *)
Definition fragment_of (u : str) : str := tail (from (Ascii.eqb "#") u).
Definition query_of (u : str) : str :=
  tail (from (Ascii.eqb "?") (before (Ascii.eqb "#") u)).

(** The index of the colon that ends a scheme [urlsplit] recognises. *)
Definition scheme_end (url : str) : option nat :=
  match find ":" url with
  | Some (S i') =>
      let i := S i' in
      if bool_decide (take i url = py "http") then Some i
      else if forallb (fun c => contains c scheme_chars) (take i url) then
        let rest := drop (S i) url in
        if negb (truthy (Some rest))
           || existsb (fun c => negb (contains c digits)) rest
        then Some i else None
      else None
  | _ => None
  end.

(** The part of a path after its last slash, and the part up to it. *)
Fixpoint last_seg (s : str) : str :=
  match s with
  | [] => []
  | x :: s' =>
      if contains "/" s' then last_seg s'
      else if Ascii.eqb "/" x then s' else x :: s'
  end.

Fixpoint head_seg (s : str) : str :=
  match s with
  | [] => []
  | x :: s' =>
      if contains "/" s' then x :: head_seg s'
      else if Ascii.eqb "/" x then [x] else []
  end.

(** Path and params as [urlparse] separates them. *)
Definition strip_params (sch url : str) : str :=
  if mem sch uses_params && contains ";" url then (_splitparams url).1 else url.

Definition params_part (sch url : str) : str :=
  if mem sch uses_params && contains ";" url then (_splitparams url).2 else [].

(** The test [urlsplit] makes on the characters before the first colon. *)
Definition is_scheme (s : str) : bool :=
  forallb (fun c => contains c scheme_chars) s.

(** The scheme, netloc and path that [urlparse] returns for a lower-cased
    url starting with "http". *)
Definition wf_triple (s N P : str) : Prop :=
  is_scheme s = true /\ lower s = s
  /\ existsb is_delim3 N = false /\ bad_brackets N = false
  /\ existsb is_delim2 P = false
  /\ (N <> [] -> P = [] \/ exists t, P = "/" :: t)
  /\ (mem s uses_params = true -> contains ";" (last_seg P) = false)
  /\ (s <> [] -> exists y, s = py "http" ++ y)
  /\ (s = [] -> N = [] /\ scheme_end P = None /\ exists y, P = py "http" ++ y).

(** The path as [urlunsplit] writes it after a netloc. *)
Definition rooted (url : str) : str :=
  if truthy (Some url) && negb (bool_decide (take 1 url = py "/"))
  then py "/" ++ url else url.

(** [urlunparse((scheme, netloc, path, None, None, None))] *)
Definition unparse3 (s N P : str) : str := urlunparse s N P None None None.

(** Nothing but scheme, netloc and path. *)
Definition clean_reparse (p : ParseResult) : Prop :=
  params p = [] /\ query p = [] /\ fragment p = [].

(** *** normalize *)

(** The url that [normalize] hands to [urlparse]: relative links fixed,
    then lower-cased. *)
Definition absolute (self : UrlCollection) (url : str) : str :=
  lower (if negb (startswith (py "/") url) then url else base_url self ++ url).

Definition lowercase (s : str) : Prop := Forall (fun c => lower_char c = c) s.

Definition bracket_free (s : str) : Prop :=
  contains "[" s = false /\ contains "]" s = false.

(** *** Frontiers, sites and runs used in the examples *)

(** The collection built for the seed "example.com". *)
Definition example_uc : UrlCollection :=
  {| root := py "example.com";
     base_url := py "http://example.com";
     seen_urls := {[ py "http://example.com" ]};
     work_urls := {[ py "http://example.com" ]};
     emails := ∅ |}.

(** "Starts with the scheme http or https", as the specification words the
    test in [normalize]. *)
Definition has_web_scheme (url : str) : bool :=
  startswith (py "http:") url || startswith (py "https:") url.

(** [normalize(normalize(url))] *)
Definition normalize_twice (self : UrlCollection) (url : option str)
  : res (option str) :=
  do n <- normalize self url; normalize self n.

(** The url parses with an empty netloc and a path that begins with two
    slashes, as "http:////x" does. *)
Definition hostless_double_slash (self : UrlCollection) (url : option str)
  : bool :=
  match url with
  | Some x =>
      match urlparse (absolute self x) with
      | Ok p => bool_decide (netloc p = [])
                && bool_decide (take 2 (path p) = py "//")
      | Raise _ => false
      end
  | None => false
  end.

(** A site whose front page links to itself with a trailing slash. *)
Definition web_root (url : str) : page :=
  if bool_decide (url = py "http://example.com") then
    Page (Some (py "http://example.com")) [Some (py "http://example.com/")]
         (Some [py "a@example.com"])
  else if bool_decide (url = py "http://example.com/") then
    Page (Some (py "http://example.com/")) [] (Some [py "b@example.com"])
  else NoLoad.

(** The public operations of the frontier, and a sequence of them run on a
    collection; a call that raises leaves the collection as it was. *)
Inductive op : Type :=
| AddUrl (url : option str)
| AddEmail (email : str)
| Next.

Definition run_op (pick : gset str -> nat) (o : op) (self : UrlCollection)
  : UrlCollection :=
  match o with
  | AddUrl url => (add_url url self).2
  | AddEmail email => (add_email email self).2
  | Next => (next pick self).2
  end.

Definition run_ops (pick : gset str -> nat) (ops : list op)
  (self : UrlCollection) : UrlCollection :=
  foldl (fun s o => run_op pick o s) self ops.

(** A sequence of [add_url] calls. *)
Definition run_add_urls (urls : list (option str)) (self : UrlCollection)
  : UrlCollection :=
  foldl (fun s u => (add_url u s).2) self urls.

(** The collection built for the seed "http://example.com/?q". *)
Definition query_seed_uc : UrlCollection :=
  {| root := py "example.com";
     base_url := py "http://example.com";
     seen_urls := {[ py "http://example.com/?q" ]};
     work_urls := {[ py "http://example.com/?q" ]};
     emails := ∅ |}.

(** The collection built for the seed "httpbin.org": the seed starts with
    "http", so no scheme is put in front of it and urlparse finds no host in
    it: the root is empty. *)
Definition httpbin_uc : UrlCollection :=
  {| root := [];
     base_url := py "://";
     seen_urls := {[ py "httpbin.org" ]};
     work_urls := {[ py "httpbin.org" ]};
     emails := ∅ |}.

(** A site of one page with one address on it. *)
Definition web_mail (url : str) : page :=
  if bool_decide (url = py "http://example.com") then
    Page (Some (py "http://example.com/")) [] (Some [py "info@example.com"])
  else NoLoad.

(** A site of two pages; the second has no body the driver can read. *)
Definition web_no_body (url : str) : page :=
  if bool_decide (url = py "http://example.com") then
    Page (Some (py "http://example.com/")) [Some (py "/contact")]
         (Some [py "info@example.com"])
  else if bool_decide (url = py "http://example.com/contact") then
    Page (Some (py "http://example.com/contact")) [] None
  else NoLoad.

(** A site of two pages, the first with two addresses on it and a landing
    url that differs from the url asked for. *)
Definition web_team (url : str) : page :=
  if bool_decide (url = py "http://example.com") then
    Page (Some (py "http://example.com/")) [Some (py "/team")]
         (Some [py "info@example.com"; py "jobs@example.com"])
  else if bool_decide (url = py "http://example.com/team") then
    Page (Some (py "http://example.com/team")) [] (Some [py "ann@example.com"])
  else NoLoad.

(** The value [load_and_parse] returns for [url] when it returns one. *)
Definition page_value (web : str -> page) (uc : UrlCollection) (url : str)
  : pyval :=
  match web url with
  | Page cur hrefs body =>
      match (do n <- normalize uc cur; should_parse uc n) with
      | Ok true => parse_emails body
      | _ => PList []
      end
  | _ => PList []
  end.

(** A site of two pages; on the second the driver loses the page before
    [current_url] is read. *)
Definition web_lost (url : str) : page :=
  if bool_decide (url = py "http://example.com") then
    Page (Some (py "http://example.com/")) [Some (py "/contact")]
         (Some [py "info@example.com"])
  else if bool_decide (url = py "http://example.com/contact") then
    NoCurrentUrl
  else NoLoad.

(** ** EMAIL_RE and download_and_parse *)

(** The regular expressions the source needs: a sequence of single
    characters and of one-or-more repetitions of a character class. *)
Inductive re_item : Type :=
| ReChar (c : ascii)                    (* a literal character *)
| RePlus (cls : ascii -> bool).         (* [cls]+ *)

Definition in_range (lo hi c : ascii) : bool :=
  ((nat_of_ascii lo <=? nat_of_ascii c)
   && (nat_of_ascii c <=? nat_of_ascii hi))%nat.

(** [a-z0-9\.\-+_] *)
Definition email_char (c : ascii) : bool :=
  in_range "a" "z" c || in_range "0" "9" c || contains c (py ".-+_").

(** [a-z] *)
Definition az (c : ascii) : bool := in_range "a" "z" c.

(** [EMAIL_RE = re.compile(r"[a-z0-9\.\-+_]+@[a-z0-9\.\-+_]+\.[a-z]+")] *)
Definition EMAIL_RE : list re_item :=
  [RePlus email_char; ReChar "@"; RePlus email_char; ReChar "."; RePlus az].

(** One or more characters of [cls], as many as possible, then [k] on what
    follows; when [k] fails, one character fewer.  The result is the length
    of the match. *)
Fixpoint greedy (cls : ascii -> bool) (k : str -> option nat) (s : str)
  : option nat :=
  match s with
  | [] => None
  | x :: s' =>
      if cls x then
        match greedy cls k s' with
        | Some n => Some (S n)
        | None => S <$> k s'
        end
      else None
  end.

(** [pattern.match] at the start of [s]: the length of the match. *)
Fixpoint re_match (re : list re_item) (s : str) : option nat :=
  match re with
  | [] => Some 0
  | ReChar c :: re' =>
      match s with
      | x :: s' => if Ascii.eqb c x then S <$> re_match re' s' else None
      | [] => None
      end
  | RePlus cls :: re' => greedy cls (re_match re') s
  end.

(** The scan of [findall]: the leftmost match, then on from its end. *)
Fixpoint findall_scan (fuel : nat) (re : list re_item) (s : str) : list str :=
  match fuel with
  | 0 => []
  | S fuel =>
      match s with
      | [] => []
      | _ :: s' =>
          match re_match re s with
          | Some (S n) => take (S n) s :: findall_scan fuel re (drop (S n) s)
          | Some 0 => [] :: findall_scan fuel re s'
          | None => findall_scan fuel re s'
          end
      end
  end.

(** [pattern.findall(string, pos)] *)
Definition findall (re : list re_item) (string : str) (pos : nat) : list str :=
  findall_scan (length string) re (drop pos string).

(** [re.I] *)
Definition re_I : nat := 2.

(** What [download_and_parse] calls in the modules [bs4] and [requests]. *)
Record modules : Type := {
  bs4 : res unit;
    (* from bs4 import BeautifulSoup: ImportError without the package *)
  requests_get : str -> option str;
    (* requests.get(url).text; None when requests.get raised *)
  BeautifulSoup : str -> res (list str)
    (* BeautifulSoup(text, "lxml"), which raises when it finds no lxml,
       then the href of every <a> that has one *)
}.

(** [download_and_parse(uc, url)] *)
Definition download_and_parse (env : modules) (url : str) : method pyval :=
  fun uc =>
  match bs4 env with
  | Raise e => (Raise e, uc)
  | Ok _ =>
      match requests_get env url with
      | None => (Ok (PList []), uc)       (* Nothing to do... *)
      | Some text =>
          (* setup html parser for url parsing *)
          match BeautifulSoup env text with
          | Raise e => (Raise e, uc)
          | Ok hrefs =>
              (* add to collection all found urls *)
              match add_urls (Some <$> hrefs) uc with
              | (Raise e, uc) => (Raise e, uc)
              | (Ok _, uc) => (Ok (PList (findall EMAIL_RE text re_I)), uc)
              end
          end
      end
  end.

(** Both modules are installed and no request goes through. *)
Definition offline : modules :=
  {| bs4 := Ok tt;
     requests_get := fun _ => None;
     BeautifulSoup := fun _ => Ok [] |}.

(** Both modules are installed and every url gives the same small text. *)
Definition one_text : modules :=
  {| bs4 := Ok tt;
     requests_get := fun _ => Some (py "<a href=/About>Info@example.com</a>");
     BeautifulSoup := fun _ => Ok [py "/About"] |}.

(** The requests go through, but lxml is missing. *)
Definition no_lxml : modules :=
  {| bs4 := Ok tt;
     requests_get := fun _ => Some (py "<a href=/About>Info@example.com</a>");
     BeautifulSoup := fun _ => Raise FeatureNotFound |}.

(** Every way the source changes a collection. *)
Inductive step : Type :=
| DoAddUrl (url : option str)
| DoAddEmail (email : str)
| DoNext
| DoLoad (url : str)           (* load_and_parse *)
| DoDownload (url : str).      (* download_and_parse *)

Section Steps.

Variable web : str -> page.
Variable env : modules.
Variable pick : gset str -> nat.

Definition run_step (st : step) (self : UrlCollection) : UrlCollection :=
  match st with
  | DoAddUrl url => (add_url url self).2
  | DoAddEmail email => (add_email email self).2
  | DoNext => (next pick self).2
  | DoLoad url => (load_and_parse web url self).2
  | DoDownload url => (download_and_parse env url self).2
  end.

Definition run_steps (steps : list step) (self : UrlCollection)
  : UrlCollection :=
  foldl (fun s st => run_step st s) self steps.

(** The urls that [crawl] takes from the collection, in order. *)
Fixpoint pulls (fuel : nat) (uc : UrlCollection) : option (list str) :=
  match fuel with
  | 0 => None
  | S fuel =>
      match next pick uc with
      | (Raise e, uc) => Some []
      | (Ok None, uc) => Some []
      | (Ok (Some url), uc) =>
          match load_and_parse web url uc with
          | (Raise e, uc) => Some [url]
          | (Ok v, uc) =>
              match pulls fuel uc with
              | None => None
              | Some l => Some (url :: l)
              end
          end
      end
  end.

(** The urls that the crawl takes from the collection in its first [n]
    pulls, whether or not it has come to an end by then. *)
Fixpoint fetched (n : nat) (uc : UrlCollection) : list str :=
  match n with
  | 0 => []
  | S n =>
      match next pick uc with
      | (Ok (Some url), uc) =>
          url :: match load_and_parse web url uc with
                 | (Ok _, uc) => fetched n uc
                 | (Raise _, _) => []
                 end
      | _ => []
      end
  end.

End Steps.

(** [b] is a later state of the collection [a]. *)
Definition extends (a b : UrlCollection) : Prop :=
  root b = root a /\ base_url b = base_url a
  /\ seen_urls a ⊆ seen_urls b /\ emails a ⊆ emails b
  /\ (work_urls a ⊆ seen_urls a -> work_urls b ⊆ seen_urls b).

(** [b] is a later state of [a] in which every pending url was pending in
    [a] already or was admitted since: unseen in [a] and in the root
    domain. *)
Definition grows (a b : UrlCollection) : Prop :=
  root b = root a /\ base_url b = base_url a
  /\ seen_urls a ⊆ seen_urls b
  /\ (work_urls a ⊆ seen_urls a -> work_urls b ⊆ seen_urls b)
  /\ (forall x, x ∈ work_urls b ->
        x ∈ work_urls a
        \/ ((x ∉ seen_urls a) /\ in_root_domain a x = Ok true)).

(** What is left to do when every admissible url lies in [U]: two units for
    each url of [U] not seen yet, one for each pending url. *)
Definition budget (U : gset str) (uc : UrlCollection) : nat :=
  2 * size (U ∖ seen_urls uc) + size (work_urls uc).

(** A string that does not begin with white space. *)
Definition no_lead (s : str) : Prop :=
  match s with
  | c :: _ => is_space c = false
  | [] => True
  end.

(** local@domain.tld as EMAIL_RE spells it. *)
Definition email_shaped (e : str) : Prop :=
  exists L D T,
    e = L ++ "@" :: D ++ "." :: T
    /\ L <> [] /\ D <> [] /\ T <> []
    /\ forallb email_char L = true /\ forallb email_char D = true
    /\ forallb az T = true.

(** * Properties *)

#[local] Arguments Ascii.eqb : simpl never.
#[local] Arguments contains : simpl never.

Example urlparse_ex1 :
  urlparse (py "https://example.com/path;p?x=1#frag")
  = Ok (mkParse (py "https") (py "example.com") (py "/path") (py "p")
          (py "x=1") (py "frag")).
Proof. vm_compute. reflexivity. Qed.

(** On characters beyond ASCII: [lower] and [strip] are those of unicode
    strings, and [_checknetloc] compares a netloc with its NFKC form. *)
Example unicode_examples :
  lower [ascii_of_nat 192; "A"; ascii_of_nat 215]
  = [ascii_of_nat 224; "a"; ascii_of_nat 215]
  /\ strip (py " example.com" ++ [ascii_of_nat 31; ascii_of_nat 160])
     = py "example.com"
  /\ nfkc (py "1" ++ [ascii_of_nat 188]) = [49; 49; 8260; 52]%N
  /\ _checknetloc (py "ex" ++ [ascii_of_nat 170] ++ py "mple.com:80") = Ok tt
  /\ _checknetloc (py "a/" ++ [ascii_of_nat 170]) = Raise ValueError.
Proof. split_and!; vm_compute; reflexivity. Qed.

(** ** Strings *)

Section StringFacts.


Lemma before_from D s : before D s ++ from D s = s.
Proof. induction s as [|x s IH]; simpl; [done|]. destruct (D x); simpl; congruence. Qed.

Lemma before_free D s : existsb D (before D s) = false.
Proof.
  induction s as [|x s IH]; simpl; [done|].
  destruct (D x) eqn:E; simpl; [done|]. by rewrite E.
Qed.

Lemma from_head D s :
  from D s = [] \/ exists x t, from D s = x :: t /\ D x = true.
Proof.
  induction s as [|x s IH]; simpl; [by left|].
  destruct (D x) eqn:E; [right; eauto | done].
Qed.

Lemma before_id D s : existsb D s = false -> before D s = s.
Proof.
  induction s as [|x s IH]; simpl; [done|].
  intros [-> ?]%orb_false_iff. f_equal; auto.
Qed.

Lemma from_nil D s : existsb D s = false -> from D s = [].
Proof.
  induction s as [|x s IH]; simpl; [done|].
  intros [-> ?]%orb_false_iff. auto.
Qed.

Lemma before_app D a b :
  existsb D a = false -> before D (a ++ b) = a ++ before D b.
Proof.
  induction a as [|x a IH]; simpl; [done|].
  intros [-> ?]%orb_false_iff. f_equal; auto.
Qed.

Lemma from_app D a b : existsb D a = false -> from D (a ++ b) = from D b.
Proof.
  induction a as [|x a IH]; simpl; [done|].
  intros [-> ?]%orb_false_iff. auto.
Qed.

Lemma before_stop D x s : D x = true -> before D (x :: s) = [].
Proof. simpl. by intros ->. Qed.

Lemma from_stop D x s : D x = true -> from D (x :: s) = x :: s.
Proof. simpl. by intros ->. Qed.

Lemma existsb_weaken (D E : ascii -> bool) s :
  (forall c, D c = true -> E c = true) ->
  existsb E s = false -> existsb D s = false.
Proof.
  intros HDE. induction s as [|x s IH]; simpl; [done|].
  intros [Hx ?]%orb_false_iff. rewrite IH by done.
  destruct (D x) eqn:E'; [|done]. apply HDE in E'. congruence.
Qed.

Lemma existsb_take (D : ascii -> bool) n s :
  existsb D s = false -> existsb D (take n s) = false.
Proof.
  revert n; induction s as [|x s IH]; intros [|n]; simpl; try done.
  intros [-> ?]%orb_false_iff. simpl. auto.
Qed.

Lemma existsb_drop (D : ascii -> bool) n s :
  existsb D s = false -> existsb D (drop n s) = false.
Proof.
  revert n; induction s as [|x s IH]; intros [|n]; simpl; try done.
  intros [_ ?]%orb_false_iff. auto.
Qed.

Lemma find_spec c s :
  find c s = match from (Ascii.eqb c) s with
             | [] => None
             | _ :: _ => Some (length (before (Ascii.eqb c) s))
             end.
Proof.
  induction s as [|x s IH]; simpl; [done|].
  destruct (Ascii.eqb c x); [done|]. rewrite IH.
  by destruct (from (Ascii.eqb c) s).
Qed.

Lemma find_None c s : find c s = None <-> contains c s = false.
Proof.
  unfold contains. induction s as [|x s IH]; simpl; [done|].
  destruct (Ascii.eqb c x); simpl; [done|].
  rewrite <- IH. by destruct (find c s).
Qed.

Lemma take_before D s : take (length (before D s)) s = before D s.
Proof.
  rewrite <- (before_from D s) at 2. by rewrite take_app_length.
Qed.

Lemma drop_before D s : drop (length (before D s)) s = from D s.
Proof.
  rewrite <- (before_from D s) at 2. by rewrite drop_app_length.
Qed.

Lemma find_Some c s i :
  find c s = Some i ->
  take i s = before (Ascii.eqb c) s /\
  drop i s = c :: drop (S i) s /\
  from (Ascii.eqb c) s = c :: drop (S i) s.
Proof.
  rewrite find_spec. intros H.
  pose proof (from_head (Ascii.eqb c) s) as [E|(x & t & E & Hx)];
    rewrite E in H; [done|].
  injection H as <-. apply Ascii.eqb_eq in Hx as <-.
  rewrite take_before. split; [done|].
  assert (drop (length (before (Ascii.eqb c) s)) s = c :: t) as Hd
    by (by rewrite drop_before).
  assert (drop (S (length (before (Ascii.eqb c) s))) s = t) as ->.
  { replace (S (length (before (Ascii.eqb c) s)))
      with (length (before (Ascii.eqb c) s) + 1) by lia.
    rewrite <- drop_drop. by rewrite Hd. }
  by rewrite Hd, E.
Qed.

End StringFacts.

(** ** urlparse *)

Section UrlparseFacts.


Lemma take2_slashes (url : str) :
  take 2 url = py "//" <-> url = "/" :: "/" :: drop 2 url.
Proof.
  destruct url as [|a [|b r]]; simpl; try (split; done).
  split; intros [= -> ->]; done.
Qed.

Lemma delim_pos r :
  foldl (fun delim c =>
           match find c r with
           | Some wdelim => Nat.min delim wdelim
           | None => delim
           end) (length r) ["/"; "?"; "#"]
  = length (before is_delim3 r).
Proof.
  induction r as [|x r IH]; [done|].
  simpl in *. destruct (is_delim3 x) eqn:E; unfold is_delim3 in E;
    destruct (Ascii.eqb "/" x), (Ascii.eqb "?" x), (Ascii.eqb "#" x);
    try discriminate E;
    destruct (find "/" r), (find "?" r), (find "#" r); simpl in *; lia.
Qed.

Lemma splitnetloc_spec r :
  _splitnetloc ("/" :: "/" :: r) 2 = (before is_delim3 r, from is_delim3 r).
Proof.
  unfold _splitnetloc, find_from.
  assert (foldl (fun delim c =>
           match (fun i => 2 + i) <$> find c (drop 2 ("/" :: "/" :: r)) with
           | Some wdelim => Nat.min delim wdelim
           | None => delim
           end) (length ("/" :: "/" :: r)) ["/"; "?"; "#"]
          = 2 + length (before is_delim3 r)) as ->.
  { rewrite <- delim_pos. change (drop 2 ("/" :: "/" :: r)) with r.
    cbn [foldl length].
    destruct (find "/" r), (find "?" r), (find "#" r);
      cbn [fmap option_fmap option_map]; lia. }
  change (2 + length (before is_delim3 r)) with (S (S (length (before is_delim3 r)))).
  cbn [take drop firstn skipn]. by rewrite take_before, drop_before.
Qed.

Lemma split1_spec c url :
  (if contains c url then split1 c url else (url, []))
  = (before (Ascii.eqb c) url, tail (from (Ascii.eqb c) url)).
Proof.
  destruct (contains c url) eqn:E.
  - unfold split1. destruct (find c url) as [i|] eqn:F.
    + apply find_Some in F as (-> & _ & ->). done.
    + apply find_None in F. congruence.
  - unfold contains in E. by rewrite before_id, from_nil.
Qed.

Lemma before_delim2 u :
  before (Ascii.eqb "?") (before (Ascii.eqb "#") u) = before is_delim2 u.
Proof.
  induction u as [|x u IH]; simpl; [done|]. unfold is_delim2.
  destruct (Ascii.eqb "#" x) eqn:E1; simpl; [done|].
  destruct (Ascii.eqb "?" x); [done|]. by rewrite IH.
Qed.

(** The only character whose NFKC form holds one of / ? # @ : is that
    character itself. *)
Lemma nfkc_char_delim (c d : ascii) :
  contains d (py "/?#@:") = true -> N_of_ascii d ∈ nfkc_char c -> c = d.
Proof.
  intros Hd Hin. apply (bool_decide_pack _) in Hin.
  assert (d = "/" \/ d = "?" \/ d = "#" \/ d = "@" \/ d = ":") as Hc.
  { revert Hd. unfold contains. simpl. rewrite !orb_true_iff.
    rewrite !Ascii.eqb_eq. intuition discriminate. }
  revert Hin.
  destruct Hc as [->|[->|[->|[->| ->]]]];
    destruct c as [[] [] [] [] [] [] [] []]; vm_compute;
    first [reflexivity | intros []].
Qed.

Lemma contains_remove (d c : ascii) (s : str) :
  contains d (remove c s) = contains d s && negb (Ascii.eqb d c).
Proof.
  unfold remove, contains. induction s as [|x s IH]; [done|].
  cbn [List.filter existsb].
  destruct (Ascii.eqb x c) eqn:Hx; cbn [negb existsb]; rewrite IH.
  - apply Ascii.eqb_eq in Hx as ->.
    destruct (Ascii.eqb d c); simpl; [by rewrite andb_false_r|done].
  - destruct (Ascii.eqb d x) eqn:E; [|done]. simpl.
    apply Ascii.eqb_eq in E as ->. by rewrite Hx.
Qed.

(** On a netloc as [_splitnetloc] cuts it, the check passes: below U+0100
    no compatibility form brings in one of / ? # @ : . *)
Lemma checknetloc_ok (netloc : str) :
  contains "/" netloc = false -> _checknetloc netloc = Ok tt.
Proof.
  intros Hs. unfold _checknetloc. destruct (negb _); [done|].
  set (n := remove "?" (remove "#" (remove ":" (remove "@" netloc)))).
  case_bool_decide; [done|].
  assert (forall d, contains d (py "/?#@:") = true -> contains d n = false)
    as Hn.
  { intros d Hd. unfold n. rewrite !contains_remove.
    assert (d = "/" \/ d = "?" \/ d = "#" \/ d = "@" \/ d = ":") as Hc.
    { revert Hd. unfold contains. simpl. rewrite !orb_true_iff.
      rewrite !Ascii.eqb_eq. intuition discriminate. }
    destruct Hc as [->|[->|[->|[->| ->]]]]; rewrite ?Hs; simpl;
      rewrite ?andb_false_r; reflexivity. }
  assert (existsb (fun c => bool_decide (N_of_ascii c ∈ nfkc n))
            (py "/?#@:") = false) as ->; [|done].
  apply not_true_iff_false. intros (d & Hd & Hin)%existsb_exists.
  apply bool_decide_eq_true in Hin. unfold nfkc in Hin.
  apply list_elem_of_bind in Hin as (c & Hin & Hc).
  assert (contains d (py "/?#@:") = true) as Hd'.
  { unfold contains. apply existsb_exists. exists d.
    split; [done|apply Ascii.eqb_refl]. }
  apply (nfkc_char_delim c d Hd') in Hin as ->.
  specialize (Hn d Hd'). unfold contains in Hn.
  apply not_true_iff_false in Hn. apply Hn. apply existsb_exists.
  exists d. split; [by apply list_elem_of_In|apply Ascii.eqb_refl].
Qed.

Lemma urlsplit_tail_eq s url :
  urlsplit_tail s url =
  if bool_decide (take 2 url = py "//") then
    let r := drop 2 url in
    if bad_brackets (before is_delim3 r) then Raise ValueError
    else Ok (mkSplit s (before is_delim3 r) (before is_delim2 (from is_delim3 r))
               (query_of (from is_delim3 r)) (fragment_of (from is_delim3 r)))
  else Ok (mkSplit s [] (before is_delim2 url) (query_of url) (fragment_of url)).
Proof.
  unfold urlsplit_tail. case_bool_decide as E.
  - apply take2_slashes in E. rewrite E at 1. rewrite splitnetloc_spec.
    simpl. destruct (bad_brackets _); [done|]. simpl.
    rewrite !split1_spec, before_delim2. simpl.
    rewrite checknetloc_ok; [done|].
    pose proof (before_free is_delim3 (drop 2 url)) as Hf. revert Hf.
    apply existsb_weaken. intros c. unfold is_delim3. by intros ->.
  - simpl. rewrite !split1_spec, before_delim2. done.
Qed.

Lemma urlsplit_eq url :
  urlsplit url =
  match scheme_end url with
  | Some i => urlsplit_tail (lower (take i url)) (drop (S i) url)
  | None => urlsplit_tail [] url
  end.
Proof.
  unfold urlsplit, scheme_end.
  destruct (find ":" url) as [[|i]|]; try done.
  case_bool_decide; [done|].
  destruct (forallb _ _); [|done]. by destruct (_ || _).
Qed.

Lemma urlparse_eq url :
  urlparse url =
  do sr <- urlsplit url;
  Ok (mkParse (s_scheme sr) (s_netloc sr)
        (strip_params (s_scheme sr) (s_path sr))
        (params_part (s_scheme sr) (s_path sr))
        (s_query sr) (s_fragment sr)).
Proof.
  unfold urlparse, strip_params, params_part.
  destruct (urlsplit url) as [sr|]; simpl; [|done].
  destruct (_ && _); [|done]. by destruct (_splitparams _).
Qed.

(** Segments of a path *)

Lemma head_last_seg s : head_seg s ++ last_seg s = s.
Proof.
  induction s as [|x s IH]; simpl; [done|].
  destruct (contains "/" s); simpl; [by rewrite IH|].
  by destruct (Ascii.eqb "/" x).
Qed.

Lemma last_seg_free s : contains "/" (last_seg s) = false.
Proof.
  induction s as [|x s IH]; simpl; [done|].
  destruct (contains "/" s) eqn:E; [done|].
  destruct (Ascii.eqb "/" x) eqn:Ex; [done|].
  unfold contains in *. simpl. by rewrite Ex, E.
Qed.

Lemma last_seg_id s : contains "/" s = false -> last_seg s = s.
Proof.
  destruct s as [|x s]; simpl; [done|]. unfold contains; simpl.
  intros [-> ->]%orb_false_iff. done.
Qed.

Lemma contains_cons c x s : contains c (x :: s) = Ascii.eqb c x || contains c s.
Proof. done. Qed.

Lemma contains_app c a b : contains c (a ++ b) = contains c a || contains c b.
Proof. unfold contains. by rewrite existsb_app. Qed.

Lemma last_seg_slash h t : last_seg (h ++ "/" :: t) = last_seg t.
Proof.
  induction h as [|x h IH]; simpl.
  - destruct (contains "/" t) eqn:E; [done|]. by rewrite last_seg_id.
  - rewrite contains_app. unfold contains at 2. simpl.
    rewrite orb_true_r. done.
Qed.

Lemma last_seg_sub c s : contains c s = false -> contains c (last_seg s) = false.
Proof.
  intros H. rewrite <- (head_last_seg s), contains_app in H.
  by apply orb_false_iff in H as [_ ?].
Qed.

Lemma rfind_slash s :
  contains "/" s = true ->
  exists h, s = h ++ "/" :: last_seg s /\ rfind "/" s = Some (length h)
            /\ head_seg s = h ++ ["/"].
Proof.
  induction s as [|x s IH]; [done|]. simpl.
  destruct (contains "/" s) eqn:E.
  - intros _. destruct (IH eq_refl) as (h & Hs & Hr & Hh).
    exists (x :: h). simpl. rewrite Hr, Hh. by rewrite <- Hs.
  - rewrite contains_cons, E, orb_false_r.
    intros Hx. rewrite Hx. exists []. simpl.
    apply Ascii.eqb_eq in Hx as <-. split; [done|]. split; [|done].
    assert (rfind "/" s = None) as ->; [|done].
    clear IH. induction s as [|y s IH]; [done|]. simpl.
    unfold contains in E. simpl in E. apply orb_false_iff in E as [-> E].
    by rewrite IH.
Qed.

Lemma splitparams_spec url :
  contains ";" url = true ->
  (_splitparams url).1 = head_seg url ++ before (Ascii.eqb ";") (last_seg url).
Proof.
  intros Hsc. unfold _splitparams. destruct (contains "/" url) eqn:E.
  - destruct (rfind_slash url E) as (h & Hs & -> & ->). simpl.
    set (L := last_seg url) in *. clearbody L. subst url.
    unfold find_from. rewrite drop_app_length. simpl.
    rewrite find_spec.
    pose proof (before_from (Ascii.eqb ";") L) as Hbf.
    destruct (from (Ascii.eqb ";") L) as [|y t] eqn:Ef; simpl.
    + rewrite app_nil_r in Hbf. rewrite Hbf. rewrite <- app_assoc. by simpl.
    + rewrite <- app_assoc. simpl.
      rewrite take_app_add'; [|done]. f_equal.
      simpl. f_equal. apply take_before.
  - assert (head_seg url = []) as ->.
    { destruct url as [|x url]; simpl; [done|]. unfold contains in E.
      simpl in E. apply orb_false_iff in E as [-> E].
      fold (contains "/" url) in E. by rewrite E. }
    rewrite (last_seg_id url E). simpl.
    destruct (find ";" url) as [i|] eqn:F.
    + by apply find_Some in F as (-> & _).
    + apply find_None in F. congruence.
Qed.

(** Params *)

Lemma existsb_before (D E : ascii -> bool) s :
  existsb E s = false -> existsb E (before D s) = false.
Proof. intros H. rewrite <- take_before. by apply existsb_take. Qed.

Lemma head_seg_nil s : contains "/" s = false -> head_seg s = [].
Proof.
  destruct s as [|x s]; simpl; [done|]. rewrite contains_cons.
  intros [-> ->]%orb_false_iff. done.
Qed.

Lemma last_seg_cut url :
  last_seg (head_seg url ++ before (Ascii.eqb ";") (last_seg url))
  = before (Ascii.eqb ";") (last_seg url).
Proof.
  assert (contains "/" (before (Ascii.eqb ";") (last_seg url)) = false) as Hb
    by apply existsb_before, last_seg_free.
  destruct (contains "/" url) eqn:Es.
  - destruct (rfind_slash url Es) as (h & _ & _ & ->).
    rewrite <- app_assoc. simpl. rewrite last_seg_slash.
    by apply last_seg_id.
  - rewrite head_seg_nil by done. simpl. by apply last_seg_id.
Qed.

Lemma strip_params_clean sch url :
  mem sch uses_params = true ->
  contains ";" (last_seg (strip_params sch url)) = false.
Proof.
  intros Hm. unfold strip_params. rewrite Hm. simpl.
  destruct (contains ";" url) eqn:E; [|by apply last_seg_sub].
  rewrite splitparams_spec by done. rewrite last_seg_cut. apply before_free.
Qed.

Lemma splitparams_fix url :
  contains ";" url = true -> contains ";" (last_seg url) = false ->
  _splitparams url = (url, []).
Proof.
  intros Hsc Hcl. unfold _splitparams. destruct (contains "/" url) eqn:E.
  - destruct (rfind_slash url E) as (h & Hs & -> & _). simpl.
    set (L := last_seg url) in *. clearbody L. subst url.
    unfold find_from. rewrite drop_app_length. simpl.
    apply find_None in Hcl. by rewrite Hcl.
  - rewrite last_seg_id in Hcl by done. congruence.
Qed.

Lemma strip_params_fix sch url :
  mem sch uses_params = false \/ contains ";" (last_seg url) = false ->
  strip_params sch url = url /\ params_part sch url = [].
Proof.
  unfold strip_params, params_part. intros [->|H]; [done|].
  destruct (mem sch uses_params); [|done]. simpl.
  destruct (contains ";" url) eqn:E; [|done].
  by rewrite splitparams_fix.
Qed.

(** [strip_params] cuts at a semicolon. *)
Lemma strip_params_prefix sch url :
  exists t, url = strip_params sch url ++ t /\
            (t = [] \/ exists t', t = ";" :: t').
Proof.
  unfold strip_params. destruct (_ && contains ";" url) eqn:E.
  - apply andb_true_iff in E as [_ E]. rewrite splitparams_spec by done.
    exists (from (Ascii.eqb ";") (last_seg url)). split.
    + rewrite <- app_assoc, before_from. by rewrite head_last_seg.
    + destruct (from_head (Ascii.eqb ";") (last_seg url)) as [->|(x & t & -> & Hx)];
        [by left|right].
      apply Ascii.eqb_eq in Hx as <-. eauto.
  - exists []. by rewrite app_nil_r; auto.
Qed.

(** Schemes *)

Lemma scheme_free d s :
  contains d scheme_chars = false -> is_scheme s = true -> contains d s = false.
Proof.
  intros Hd. unfold is_scheme, contains at 2.
  induction s as [|x s IH]; simpl; [done|].
  intros [Hx Hs]%andb_true_iff. rewrite IH by done.
  destruct (Ascii.eqb_spec d x) as [->|]; [congruence|done].
Qed.

Lemma find_app_colon c s rest :
  contains c s = false -> find c (s ++ c :: rest) = Some (length s).
Proof.
  intros H. rewrite find_spec. unfold contains in H.
  rewrite from_app by done. simpl. rewrite Ascii.eqb_refl.
  rewrite before_app by done. simpl. rewrite Ascii.eqb_refl.
  by rewrite app_nil_r.
Qed.

Lemma scheme_end_app s rest :
  s <> [] -> is_scheme s = true ->
  scheme_end (s ++ ":" :: rest) =
  if bool_decide (s = py "http") then Some (length s)
  else if negb (truthy (Some rest))
          || existsb (fun c => negb (contains c digits)) rest
       then Some (length s) else None.
Proof.
  intros Hne Hs. unfold scheme_end.
  rewrite find_app_colon by (by apply scheme_free).
  destruct s as [|x s]; [done|]. cbn [length].
  change (S (length s)) with (length (x :: s)).
  rewrite take_app_length.
  replace (drop (S (length (x :: s))) ((x :: s) ++ ":" :: rest)) with rest.
  2:{ change (S (length (x :: s))) with (length (x :: s) + 1)%nat at 1 || idtac.
      replace (S (length (x :: s))) with (length (x :: s) + 1) by lia.
      rewrite <- drop_drop, drop_app_length. done. }
  fold (is_scheme (x :: s)). rewrite Hs. done.
Qed.

Lemma scheme_end_Some url i :
  scheme_end url = Some i ->
  exists s rest, url = s ++ ":" :: rest /\ i = length s /\ s <> []
                 /\ is_scheme s = true /\ take i url = s /\ drop (S i) url = rest.
Proof.
  unfold scheme_end. destruct (find ":" url) as [[|j]|] eqn:F; try done.
  intros H. apply find_Some in F as (Ht & Hd & _).
  assert (i = S j) as ->.
  { case_bool_decide; [congruence|].
    destruct (forallb _ _); [|done]. destruct (_ || _); congruence. }
  exists (take (S j) url), (drop (S (S j)) url).
  assert (length (take (S j) url) = S j) as Hlen.
  { rewrite length_take. apply (f_equal length) in Hd.
    rewrite length_drop in Hd. simpl in Hd. lia. }
  split_and!; try done.
  - rewrite <- Hd. by rewrite take_drop.
  - intros E. rewrite E in Hlen. done.
  - case_bool_decide as E; [by rewrite E|].
    unfold is_scheme. destruct (forallb _ _); done.
Qed.

Lemma lower_take n s : lower s = s -> lower (take n s) = take n s.
Proof. unfold lower. intros H. rewrite <- H at 2. by rewrite fmap_take. Qed.

Lemma lower_drop n s : lower s = s -> lower (drop n s) = drop n s.
Proof. unfold lower. intros H. rewrite <- H at 2. by rewrite fmap_drop. Qed.

Lemma find_app_l c a b i : find c a = Some i -> find c (a ++ b) = Some i.
Proof.
  revert i. induction a as [|x a IH]; intros i; simpl; [done|].
  destruct (Ascii.eqb c x); [done|].
  destruct (find c a) as [j|]; [|done]. simpl. intros [= <-].
  by rewrite (IH j).
Qed.

Lemma find_lt c s i : find c s = Some i -> i < length s.
Proof.
  revert i. induction s as [|x s IH]; intros i; simpl; [done|].
  destruct (Ascii.eqb c x); [intros [= <-]; lia|].
  destruct (find c s) as [j|]; [|done]. simpl. intros [= <-].
  specialize (IH j eq_refl). lia.
Qed.

Lemma scheme_end_prefix v P t :
  v = P ++ t ->
  (t = [] \/ exists d t', t = d :: t' /\ contains d digits = false) ->
  scheme_end v = None -> scheme_end P = None.
Proof.
  intros -> [->|(d & t' & -> & Hd)]; [by rewrite app_nil_r|].
  unfold scheme_end. destruct (find ":" P) as [[|j]|] eqn:F; try done.
  rewrite (find_app_l _ _ _ _ F). pose proof (find_lt _ _ _ F) as Hlt.
  rewrite take_app_le by lia. rewrite drop_app_le by lia.
  case_bool_decide; [done|]. destruct (forallb _ _); [|done].
  rewrite existsb_app. simpl. rewrite Hd. simpl.
  rewrite orb_true_r, orb_true_r. done.
Qed.

Lemma existsb_app_l (D : ascii -> bool) a b :
  existsb D (a ++ b) = false -> existsb D a = false.
Proof. rewrite existsb_app. by intros [? _]%orb_false_iff. Qed.

Lemma strip_params_delim2 sch url :
  existsb is_delim2 url = false ->
  existsb is_delim2 (strip_params sch url) = false.
Proof.
  destruct (strip_params_prefix sch url) as (t & E & _).
  intros H. rewrite E in H. by apply existsb_app_l in H.
Qed.

Lemma strip_params_head sch url :
  url = [] \/ (exists t, url = "/" :: t) ->
  strip_params sch url = [] \/ exists t, strip_params sch url = "/" :: t.
Proof.
  destruct (strip_params_prefix sch url) as (t & E & _).
  destruct (strip_params sch url) as [|c P']; [by left|].
  intros [H|(t' & H)]; rewrite H in E; [done|].
  injection E as <- _. right; eauto.
Qed.

Lemma path_head r :
  existsb is_delim2 (before is_delim2 (from is_delim3 r)) = false /\
  (before is_delim2 (from is_delim3 r) = [] \/
   exists t, before is_delim2 (from is_delim3 r) = "/" :: t).
Proof.
  split; [apply before_free|].
  destruct (from_head is_delim3 r) as [->|(x & t & -> & Hx)]; [by left|].
  simpl. destruct (is_delim2 x) eqn:E2; [by left|right].
  unfold is_delim3, is_delim2 in *.
  destruct (Ascii.eqb_spec "/" x) as [<-|]; [eauto|].
  simpl in Hx. rewrite orb_comm in Hx. congruence.
Qed.

Lemma startswith_http v :
  startswith (py "http") v = true -> exists t, v = py "http" ++ t.
Proof.
  destruct v as [|a [|b [|c [|d t]]]]; simpl; try done;
    rewrite ?andb_false_r; try done.
  intros H. repeat (apply andb_true_iff in H as [?%Ascii.eqb_eq H]).
  subst. eauto.
Qed.

Lemma take2_http t : take 2 (py "http" ++ t) <> py "//".
Proof. done. Qed.

(** A prefix of a url starting with "http", cut at a character that is not
    one of h, t, p, starts with "http" too. *)
Lemma http_prefix P t x :
  py "http" ++ x = P ++ t ->
  (t = [] \/ exists d t', t = d :: t' /\ contains d (py "http") = false) ->
  exists y, P = py "http" ++ y.
Proof.
  intros E [->|(d & t' & -> & Hd)].
  - rewrite app_nil_r in E. eauto.
  - destruct P as [|a [|b [|c [|e P']]]]; simpl in E;
      try (injection E as <-; done); try (injection E as _ <-; done);
      try (injection E as _ _ <-; done); try (injection E as _ _ _ <-; done).
    injection E as <- <- <- <- _. eauto.
Qed.

Lemma urlparse_wf v p :
  lower v = v -> startswith (py "http") v = true ->
  urlparse v = Ok p ->
  wf_triple (scheme p) (netloc p) (path p).
Proof.
  intros Hlow [x ->]%startswith_http. rewrite urlparse_eq, urlsplit_eq.
  destruct (scheme_end _) as [i|] eqn:Es.
  - destruct (scheme_end_Some _ _ Es) as (s & rest & Hv & -> & Hne & Hs & -> & ->).
    assert (lower s = s) as Hls.
    { rewrite Hv in Hlow. unfold lower in *. rewrite fmap_app in Hlow.
      apply app_inj_1 in Hlow as [? _]; [done|by rewrite length_fmap]. }
    assert (exists y, s = py "http" ++ y) as Hpre.
    { apply (http_prefix _ _ _ Hv). right. eauto. }
    rewrite Hls. rewrite urlsplit_tail_eq.
    case_bool_decide as E2; cbn zeta.
    + destruct (bad_brackets _) eqn:Eb; [done|]. simpl. intros [= <-]. simpl.
      destruct (path_head (drop 2 rest)) as [Hd2 Hhd].
      repeat split; try done.
      * apply before_free.
      * by apply strip_params_delim2.
      * intros _. by apply strip_params_head.
      * intros Hm. by apply strip_params_clean.
    + simpl. intros [= <-]. simpl.
      repeat split; try done.
      * apply strip_params_delim2, before_free.
      * intros Hm. by apply strip_params_clean.
  - rewrite urlsplit_tail_eq. rewrite bool_decide_eq_false_2 by apply take2_http.
    cbn [res_bind s_scheme s_netloc s_path]. intros [= <-].
    cbn [scheme netloc path].
    destruct (strip_params_prefix [] (before is_delim2 (py "http" ++ x)))
      as (t & Et & Ht).
    repeat split; try done.
    + apply strip_params_delim2, before_free.
    + intros _. by apply strip_params_clean.
    + eapply scheme_end_prefix; [exact Et| |].
      { destruct Ht as [->|(t' & ->)]; [by left|right]. eauto. }
      eapply scheme_end_prefix; [symmetry; apply (before_from is_delim2)| |exact Es].
      destruct (from_head is_delim2 (py "http" ++ x)) as [->|(d & t' & -> & Hd)];
        [by left|right].
      exists d, t'. split; [done|]. unfold is_delim2 in Hd.
      apply orb_true_iff in Hd as [<-%Ascii.eqb_eq| <-%Ascii.eqb_eq]; done.
    + assert (exists y, before is_delim2 (py "http" ++ x) = py "http" ++ y)
        as [y Hy] by (simpl; eauto).
      rewrite Hy in Et at 1.
      apply (http_prefix _ _ _ Et).
      destruct Ht as [->|(t' & ->)]; [by left|right]. eauto.
Qed.

Lemma rooted_head P : rooted P = [] \/ exists t, rooted P = "/" :: t.
Proof.
  unfold rooted. destruct P as [|c P]; [by left|]. simpl.
  case_bool_decide as E; simpl; [|right; eauto].
  injection E as ->. right; eauto.
Qed.

Lemma rooted_id P : P = [] \/ (exists t, P = "/" :: t) -> rooted P = P.
Proof. by intros [->|(t & ->)]. Qed.

Lemma delim2_free u :
  existsb is_delim2 u = false ->
  before is_delim2 u = u /\ query_of u = [] /\ fragment_of u = [].
Proof.
  intros H. split; [by apply before_id|]. unfold query_of, fragment_of.
  assert (existsb (Ascii.eqb "#") u = false) as H1.
  { revert H. apply existsb_weaken. intros c. unfold is_delim2. by intros ->. }
  assert (existsb (Ascii.eqb "?") u = false) as H2.
  { revert H. apply existsb_weaken. intros c. unfold is_delim2. intros ->.
    apply orb_true_r. }
  rewrite (before_id _ _ H1), (from_nil _ _ H1), (from_nil _ _ H2). done.
Qed.

Lemma urlparse_plain w :
  scheme_end w = None -> take 2 w <> py "//" ->
  existsb is_delim2 w = false -> contains ";" (last_seg w) = false ->
  urlparse w = Ok (mkParse [] [] w [] [] []).
Proof.
  intros Hs H2 Hd Hc. rewrite urlparse_eq, urlsplit_eq, Hs, urlsplit_tail_eq.
  rewrite bool_decide_eq_false_2 by done.
  cbn [res_bind s_scheme s_netloc s_path s_query s_fragment].
  destruct (delim2_free w Hd) as (-> & -> & ->).
  destruct (strip_params_fix [] w) as [-> ->]; [by right|]. done.
Qed.

Lemma urlparse_schemed s P :
  lower s = s -> scheme_end (s ++ ":" :: P) = Some (length s) ->
  take 2 P <> py "//" -> existsb is_delim2 P = false ->
  (mem s uses_params = true -> contains ";" (last_seg P) = false) ->
  urlparse (s ++ ":" :: P) = Ok (mkParse s [] P [] [] []).
Proof.
  intros Hl Hs H2 Hd Hc. rewrite urlparse_eq, urlsplit_eq, Hs.
  rewrite take_app_length.
  replace (drop (S (length s)) (s ++ ":" :: P)) with P.
  2:{ replace (S (length s)) with (length s + 1) by lia.
      by rewrite <- drop_drop, drop_app_length. }
  rewrite Hl, urlsplit_tail_eq.
  rewrite bool_decide_eq_false_2 by done.
  cbn [res_bind s_scheme s_netloc s_path s_query s_fragment].
  destruct (delim2_free P Hd) as (-> & -> & ->).
  destruct (strip_params_fix s P) as [-> ->]; [|done].
  destruct (mem s uses_params); [right; auto|by left].
Qed.

Lemma scheme_end_slash s Q :
  s <> [] -> is_scheme s = true ->
  scheme_end (s ++ ":" :: "/" :: Q) = Some (length s).
Proof.
  intros Hne Hs. rewrite scheme_end_app by done.
  case_bool_decide; [done|]. done.
Qed.

Lemma urlparse_hosted s N Q :
  s <> [] -> is_scheme s = true -> lower s = s ->
  existsb is_delim3 N = false -> existsb is_delim2 Q = false ->
  (Q = [] \/ exists t, Q = "/" :: t) ->
  (mem s uses_params = true -> contains ";" (last_seg Q) = false) ->
  urlparse (s ++ ":" :: "/" :: "/" :: N ++ Q) =
  if bad_brackets N then Raise ValueError
  else Ok (mkParse s N Q [] [] []).
Proof.
  intros Hne Hs Hl HN HQ Hh Hc.
  rewrite urlparse_eq, urlsplit_eq, scheme_end_slash by done.
  rewrite take_app_length.
  replace (drop (S (length s)) (s ++ ":" :: "/" :: "/" :: N ++ Q))
    with ("/" :: "/" :: N ++ Q).
  2:{ replace (S (length s)) with (length s + 1) by lia.
      by rewrite <- drop_drop, drop_app_length. }
  rewrite Hl, urlsplit_tail_eq. rewrite bool_decide_eq_true_2 by done.
  cbn zeta. change (drop 2 ("/" :: "/" :: N ++ Q)) with (N ++ Q).
  assert (before is_delim3 (N ++ Q) = N /\ from is_delim3 (N ++ Q) = Q) as [-> ->].
  { rewrite before_app, from_app by done.
    destruct Hh as [->|(t & ->)]; simpl; by rewrite ?app_nil_r. }
  destruct (bad_brackets N); [done|].
  cbn [res_bind s_scheme s_netloc s_path s_query s_fragment].
  destruct (delim2_free Q HQ) as (-> & -> & ->).
  destruct (strip_params_fix s Q) as [-> ->]; [|done].
  destruct (mem s uses_params); [right; auto|by left].
Qed.

(** urlunparse of a scheme, netloc and path *)

Lemma unparse3_nil P : unparse3 [] [] P = P.
Proof. done. Qed.

Lemma unparse3_hosted s N P :
  s <> [] ->
  N <> [] \/ (mem s uses_netloc = true /\ take 2 P <> py "//") ->
  unparse3 s N P = s ++ ":" :: "/" :: "/" :: N ++ rooted P.
Proof.
  intros Hs H. unfold unparse3, urlunparse, urlunsplit, rooted.
  destruct s as [|a s]; [done|].
  destruct H as [H|[Hm H2]].
  - destruct N as [|n N]; [done|]. done.
  - assert (bool_decide (take 2 P = py "//") = false) as E2
      by (by apply bool_decide_eq_false_2).
    cbn [truthy]. rewrite Hm, E2. by destruct N.
Qed.

Lemma unparse3_bare s P :
  s <> [] -> mem s uses_netloc = false \/ take 2 P = py "//" ->
  unparse3 s [] P = s ++ ":" :: P.
Proof.
  intros Hs H. unfold unparse3, urlunparse, urlunsplit.
  destruct s as [|a s]; [done|]. cbn [truthy].
  destruct H as [->|H2]; [done|].
  assert (bool_decide (take 2 P = py "//") = true) as E2
    by (by apply bool_decide_eq_true_2).
  rewrite E2. by destruct (mem _ _).
Qed.

Lemma rooted_take2 P : take 2 P <> py "//" -> take 2 (rooted P) <> py "//".
Proof.
  unfold rooted. destruct P as [|c P]; [done|]. simpl.
  case_bool_decide as E; simpl; [done|].
  intros _ [= ->]. done.
Qed.

Lemma rooted_delim2 P :
  existsb is_delim2 P = false -> existsb is_delim2 (rooted P) = false.
Proof. unfold rooted. by destruct (_ && _). Qed.

Lemma last_seg_slash0 t : last_seg ("/" :: t) = last_seg t.
Proof. exact (last_seg_slash [] t). Qed.

Lemma rooted_last_seg P : last_seg (rooted P) = last_seg P.
Proof.
  unfold rooted. destruct (_ && _); [|done]. apply (last_seg_slash []).
Qed.

Lemma digits_free d P :
  contains d digits = false ->
  existsb (fun c => negb (contains c digits)) P = false -> contains d P = false.
Proof.
  intros Hd. induction P as [|x P IH]; simpl; [done|].
  intros [Hx HP]%orb_false_iff. rewrite contains_cons, IH by done.
  destruct (Ascii.eqb_spec d x) as [->|]; [|done].
  rewrite Hd in Hx. done.
Qed.

Lemma scheme_head_take2 s u : s <> [] -> is_scheme s = true -> take 2 (s ++ u) <> py "//".
Proof.
  destruct s as [|c s]; [done|]. intros _ [Hc _]%andb_true_iff.
  simpl. destruct (s ++ u); intros [= -> ]; done.
Qed.

Lemma scheme_existsb (D : ascii -> bool) s :
  (forall c, D c = true -> contains c scheme_chars = false) ->
  is_scheme s = true -> existsb D s = false.
Proof.
  intros HD. induction s as [|x s IH]; simpl; [done|].
  intros [Hx Hs]%andb_true_iff. rewrite IH by done.
  destruct (D x) eqn:E; [|done]. apply HD in E. congruence.
Qed.

Lemma delim2_not_scheme c : is_delim2 c = true -> contains c scheme_chars = false.
Proof.
  unfold is_delim2.
  intros [<-%Ascii.eqb_eq| <-%Ascii.eqb_eq]%orb_true_iff; done.
Qed.

Lemma delim3_cases c : is_delim3 c = true -> is_delim2 c = false -> c = "/".
Proof.
  unfold is_delim3, is_delim2.
  destruct (Ascii.eqb_spec "/" c) as [<-|]; [done|].
  simpl. rewrite orb_comm. congruence.
Qed.

(** scheme:digits is read back as a path *)
Lemma reparse_port s P :
  s <> [] -> is_scheme s = true -> existsb is_delim2 P = false ->
  scheme_end (s ++ ":" :: P) = None ->
  urlparse (s ++ ":" :: P) = Ok (mkParse [] [] (s ++ ":" :: P) [] [] []).
Proof.
  intros Hne Hs HP Hse. pose proof Hse as Hse'.
  rewrite scheme_end_app in Hse' by done.
  case_bool_decide; [done|].
  destruct (negb _ || _) eqn:E; [done|]. apply orb_false_iff in E as [_ Hdig].
  apply urlparse_plain; [done|by apply scheme_head_take2| |].
  - rewrite existsb_app. rewrite (scheme_existsb is_delim2 s) by
      auto using delim2_not_scheme. simpl. done.
  - apply last_seg_sub. rewrite contains_app, contains_cons.
    rewrite (scheme_free ";" s), (digits_free ";" P) by done. done.
Qed.

(** scheme://rest with rest free of query and fragment *)
Lemma reparse_slashes s r :
  s <> [] -> is_scheme s = true -> lower s = s ->
  existsb is_delim2 r = false ->
  (mem s uses_params = true -> contains ";" (last_seg ("/" :: "/" :: r)) = false) ->
  urlparse (s ++ ":" :: "/" :: "/" :: r) =
  (if bad_brackets (before is_delim3 r) then Raise ValueError
   else Ok (mkParse s (before is_delim3 r) (from is_delim3 r) [] [] []))
  /\ (from is_delim3 r = [] \/ exists t, from is_delim3 r = "/" :: t).
Proof.
  intros Hne Hs Hl Hr Hc.
  assert (existsb is_delim2 (from is_delim3 r) = false) as HQ.
  { rewrite <- drop_before. by apply existsb_drop. }
  assert (from is_delim3 r = [] \/ exists t, from is_delim3 r = "/" :: t) as Hh.
  { destruct (from_head is_delim3 r) as [->|(x & t & E & Hx)]; [by left|right].
    rewrite E in HQ. simpl in HQ. apply orb_false_iff in HQ as [Hx2 _].
    rewrite (delim3_cases x Hx Hx2) in E. eauto. }
  split; [|done].
  rewrite <- (before_from is_delim3 r) at 1.
  apply urlparse_hosted; try done; [apply before_free|].
  intros Hm. specialize (Hc Hm).
  destruct Hh as [->|(t & E)]; [done|].
  rewrite <- (before_from is_delim3 r), E in Hc.
  change ("/" :: "/" :: before is_delim3 r ++ "/" :: t)
    with (("/" :: "/" :: before is_delim3 r) ++ "/" :: t) in Hc.
  rewrite last_seg_slash in Hc. rewrite E.
  by rewrite last_seg_slash0.
Qed.

Lemma reparse s N P :
  wf_triple s N P ->
  (exists p', urlparse (unparse3 s N P) = Ok p' /\ clean_reparse p'
              /\ unparse3 (scheme p') (netloc p') (path p') = unparse3 s N P)
  \/ (N = [] /\ take 2 P = py "//"
      /\ (urlparse (unparse3 s N P) = Raise ValueError
          \/ exists p', urlparse (unparse3 s N P) = Ok p' /\ clean_reparse p'
                        /\ netloc p' = [])).
Proof.
  intros (Hs & Hl & HN & Hb & HP & Hh & Hc & _ & Hf).
  destruct (decide (s = [])) as [->|Hne].
  { (* no scheme: the url is its path *)
    destruct (Hf eq_refl) as (-> & Hse & y & ->). left.
    pose proof (take2_http y) as H2.
    rewrite unparse3_nil. eexists. split; [by apply urlparse_plain; auto|].
    done. }
  destruct (decide (N = [])) as [->|HNe].
  2:{ (* a host: scheme://host/path *)
    left. rewrite unparse3_hosted by auto.
    rewrite (rooted_id P) by auto.
    rewrite urlparse_hosted, Hb by auto.
    eexists. split; [done|]. split; [done|]. simpl.
    rewrite unparse3_hosted by auto. by rewrite (rooted_id P) by auto. }
  destruct (decide (take 2 P = py "//")) as [E2|E2].
  - (* scheme: followed by a path that starts with two slashes *)
    rewrite unparse3_bare by auto.
    apply take2_slashes in E2. set (r := drop 2 P) in *. clearbody r. subst P.
    simpl in HP.
    destruct (reparse_slashes s r) as [Hp Hhd]; try done.
    rewrite Hp.
    destruct (bad_brackets (before is_delim3 r)) eqn:Ebad; [right; auto|].
    destruct (decide (before is_delim3 r = [])) as [EN|EN].
    + right. split_and!; try done. right. eexists. done.
    + left. eexists. split; [done|]. split; [done|]. simpl.
      rewrite unparse3_hosted by auto. rewrite rooted_id by done.
      by rewrite before_from.
  - destruct (mem s uses_netloc) eqn:Hm.
    + (* scheme:///path *)
      left. rewrite unparse3_hosted by auto.
      rewrite (urlparse_hosted s []); try done.
      * simpl. eexists. split; [done|]. split; [done|]. simpl.
        rewrite (unparse3_hosted s [] (rooted P) Hne)
          by (right; auto using rooted_take2).
        rewrite (rooted_id (rooted P)) by apply rooted_head. done.
      * by apply rooted_delim2.
      * apply rooted_head.
      * rewrite rooted_last_seg. done.
    + (* scheme:path *)
      left. rewrite unparse3_bare by auto.
      destruct (scheme_end (s ++ ":" :: P)) as [i|] eqn:Ese.
      * assert (i = length s) as ->.
        { rewrite scheme_end_app in Ese by done.
          case_bool_decide; [|destruct (_ || _)]; congruence. }
        rewrite urlparse_schemed by done.
        eexists. split; [done|]. split; [done|]. simpl.
        by rewrite unparse3_bare by auto.
      * rewrite reparse_port by done.
        eexists. split; [done|]. done.
Qed.

End UrlparseFacts.

(** ** normalize *)

Section NormalizeFacts.

Lemma lower_char_idem c : lower_char (lower_char c) = lower_char c.
Proof. destruct c as [[] [] [] [] [] [] [] []]; reflexivity. Qed.

Lemma lower_lowercase s : lowercase (lower s).
Proof.
  unfold lowercase, lower. apply Forall_fmap, Forall_forall.
  intros c _. apply lower_char_idem.
Qed.

Lemma lowercase_fix s : lowercase s <-> lower s = s.
Proof.
  unfold lowercase, lower. induction s as [|c s IH]; simpl; [done|].
  rewrite Forall_cons, IH. split; [intros [-> ->]; done|].
  intros [= ? ?]. done.
Qed.

Lemma before_take D s : exists n, before D s = take n s.
Proof. exists (length (before D s)). by rewrite take_before. Qed.

Lemma from_drop D s : exists n, from D s = drop n s.
Proof. exists (length (before D s)). by rewrite drop_before. Qed.

Lemma urlsplit_tail_forall (Q : ascii -> Prop) sch v sr :
  urlsplit_tail sch v = Ok sr -> Forall Q v ->
  Forall Q (s_netloc sr) /\ Forall Q (s_path sr).
Proof.
  rewrite urlsplit_tail_eq. intros H Hv.
  case_bool_decide; cbn zeta in H.
  - destruct (bad_brackets _); [done|]. injection H as <-. simpl.
    destruct (before_take is_delim3 (drop 2 v)) as [n ->].
    destruct (from_drop is_delim3 (drop 2 v)) as [m ->].
    destruct (before_take is_delim2 (drop m (drop 2 v))) as [k ->].
    auto using Forall_take, Forall_drop.
  - injection H as <-. simpl.
    destruct (before_take is_delim2 v) as [k ->].
    auto using Forall_take.
Qed.

Lemma urlparse_forall (Q : ascii -> Prop) v p :
  urlparse v = Ok p -> Forall Q v ->
  Forall Q (netloc p) /\ Forall Q (path p).
Proof.
  rewrite urlparse_eq, urlsplit_eq. intros H Hv.
  assert (exists sch u, Forall Q u /\
            (do sr <- urlsplit_tail sch u;
             Ok (mkParse (s_scheme sr) (s_netloc sr)
                   (strip_params (s_scheme sr) (s_path sr))
                   (params_part (s_scheme sr) (s_path sr))
                   (s_query sr) (s_fragment sr))) = Ok p)
    as (sch & u & Hu & H').
  { destruct (scheme_end v); eauto using Forall_drop. }
  clear H. destruct (urlsplit_tail sch u) as [sr|] eqn:E; [|done].
  injection H' as <-. simpl.
  destruct (urlsplit_tail_forall Q _ _ _ E Hu) as [HN HP]. split; [done|].
  destruct (strip_params_prefix (s_scheme sr) (s_path sr)) as (t & Et & _).
  rewrite Et in HP. by apply Forall_app in HP as [? _].
Qed.

Lemma unparse3_shape s N P :
  exists pre body,
    unparse3 s N P = pre ++ body
    /\ ((pre = [] /\ s = []) \/ (pre = s ++ [":"] /\ s <> []))
    /\ (body = P \/ body = "/" :: "/" :: N ++ rooted P).
Proof.
  unfold unparse3, urlunparse, urlunsplit. cbn [truthy]. fold (rooted P).
  destruct s as [|a s].
  - exists []. eexists. split; [done|]. split; [by left|].
    destruct (_ || _); [by right|by left].
  - exists ((a :: s) ++ [":"]). eexists. split; [by rewrite <- app_assoc|].
    split; [by right|].
    destruct (_ || _); [by right|by left].
Qed.

Lemma unparse3_forall (Q : ascii -> Prop) s N P :
  Q ":" -> Q "/" -> Forall Q s -> Forall Q N -> Forall Q P ->
  Forall Q (unparse3 s N P).
Proof.
  intros Hc Hsl Hs HN HP.
  assert (Forall Q (rooted P)) as HR.
  { unfold rooted. destruct (_ && _); [by constructor|done]. }
  destruct (unparse3_shape s N P) as (pre & body & -> & Hpre & Hbody).
  apply Forall_app. split.
  - destruct Hpre as [[-> _]|[-> _]]; [done|].
    apply Forall_app. split; [done|]. by repeat constructor.
  - destruct Hbody as [->| ->]; [done|].
    repeat constructor; try done. by apply Forall_app.
Qed.

Lemma existsb_Forall (D : ascii -> bool) s :
  existsb D s = false <-> Forall (fun c => D c = false) s.
Proof.
  induction s as [|c s IH]; simpl; [done|].
  rewrite orb_false_iff, Forall_cons, IH. done.
Qed.

Lemma is_scheme_Forall (Q : ascii -> Prop) s :
  (forall c, contains c scheme_chars = true -> Q c) ->
  is_scheme s = true -> Forall Q s.
Proof.
  intros HQ. induction s as [|c s IH]; simpl; [done|].
  intros [Hc Hs]%andb_true_iff. constructor; auto.
Qed.

Lemma wf_unparse3 s N P :
  wf_triple s N P ->
  (exists z, unparse3 s N P = py "http" ++ z)
  /\ existsb is_delim2 (unparse3 s N P) = false
  /\ (lowercase N -> lowercase P -> lowercase (unparse3 s N P)).
Proof.
  intros (Hs & Hl & HN & Hb & HP & Hh & Hc & Hpre & Hf). split_and!.
  - destruct (decide (s = [])) as [->|Hne].
    + destruct (Hf eq_refl) as (-> & _ & y & ->).
      rewrite unparse3_nil. eauto.
    + destruct (unparse3_shape s N P) as (pre & body & -> & Hp & _).
      destruct Hp as [[_ ?]|[-> _]]; [done|].
      destruct (Hpre Hne) as [y ->]. rewrite <- !app_assoc. eauto.
  - apply existsb_Forall. apply unparse3_forall; try done.
    + apply is_scheme_Forall; [|done]. intros c Hc'.
      destruct (is_delim2 c) eqn:E; [|done].
      apply delim2_not_scheme in E. congruence.
    + apply existsb_Forall. revert HN. apply existsb_weaken.
      intros c. unfold is_delim2, is_delim3.
      intros [->| ->]%orb_true_iff; by rewrite ?orb_true_r.
    + by apply existsb_Forall.
  - intros HlN HlP. apply unparse3_forall; try done.
    by apply lowercase_fix.
Qed.

Lemma normalize_eq self c u :
  normalize self (Some (c :: u)) =
  if negb (startswith (py "http") (absolute self (c :: u))) then Ok None
  else do p <- urlparse (absolute self (c :: u));
       Ok (Some (unparse3 (scheme p) (netloc p) (path p))).
Proof. done. Qed.

Lemma absolute_fix self w :
  lower w = w -> (exists z, w = py "http" ++ z) -> absolute self w = w.
Proof. intros Hl [z ->]. unfold absolute. done. Qed.

Lemma absolute_lower self x : lower (absolute self x) = absolute self x.
Proof. apply lowercase_fix, lower_lowercase. Qed.

Lemma normalize_Some self u w :
  normalize self u = Ok (Some w) ->
  exists x p, u = Some x
    /\ startswith (py "http") (absolute self x) = true
    /\ urlparse (absolute self x) = Ok p
    /\ w = unparse3 (scheme p) (netloc p) (path p)
    /\ wf_triple (scheme p) (netloc p) (path p)
    /\ lowercase (netloc p) /\ lowercase (path p).
Proof.
  destruct u as [[|c u]|]; try done. rewrite normalize_eq.
  destruct (startswith _ _) eqn:Eh; [|done]. simpl.
  destruct (urlparse _) as [p|] eqn:Ep; [|done]. simpl. intros [= <-].
  exists (c :: u), p. split_and!; try done.
  - apply (urlparse_wf (absolute self (c :: u))); [apply absolute_lower|done..].
  - eapply urlparse_forall; [done|]. apply lower_lowercase.
  - eapply urlparse_forall; [done|]. apply lower_lowercase.
Qed.

Lemma normalize_shape self u w :
  normalize self u = Ok (Some w) ->
  lower w = w /\ (exists z, w = py "http" ++ z) /\ existsb is_delim2 w = false.
Proof.
  intros (x & p & _ & _ & _ & -> & Hwf & HlN & HlP)%normalize_Some.
  destruct (wf_unparse3 _ _ _ Hwf) as (Hh & Hd & Hl).
  split_and!; try done. apply lowercase_fix. auto.
Qed.

Lemma normalize_of_normal self w :
  lower w = w -> (exists z, w = py "http" ++ z) ->
  normalize self (Some w) =
  do p <- urlparse w; Ok (Some (unparse3 (scheme p) (netloc p) (path p))).
Proof.
  intros Hl Hh. pose proof (absolute_fix self w Hl Hh) as Ha.
  destruct Hh as [z ->]. cbn [py list_ascii_of_string app] in *.
  rewrite normalize_eq. rewrite Ha. done.
Qed.

(** Normalizing a result of [normalize] once more. *)
Lemma normalize_again self u w :
  normalize self u = Ok (Some w) ->
  (exists p', urlparse w = Ok p' /\ clean_reparse p'
     /\ forall self', normalize self' (Some w) = Ok (Some w))
  \/ (exists x p, u = Some x /\ urlparse (absolute self x) = Ok p
        /\ netloc p = [] /\ take 2 (path p) = py "//"
        /\ (urlparse w = Raise ValueError
            \/ exists p', urlparse w = Ok p' /\ clean_reparse p'
                          /\ netloc p' = [])).
Proof.
  intros H. pose proof (normalize_shape _ _ _ H) as (Hl & Hh & _).
  destruct (normalize_Some _ _ _ H) as (x & p & -> & _ & Hp & -> & Hwf & _).
  destruct (reparse _ _ _ Hwf) as [(p' & Hp' & Hcl & Hun)|(HN & H2 & Hodd)].
  - left. exists p'. split_and!; try done. intros self'.
    rewrite normalize_of_normal by done. rewrite Hp'. simpl. by rewrite Hun.
  - right. exists x, p. done.
Qed.

End NormalizeFacts.


(** ** UrlCollection *)

Section UrlCollectionFacts.

Lemma startswith_spec p s : startswith p s = true <-> exists t, s = p ++ t.
Proof.
  revert s. induction p as [|a p IH]; intros s; simpl.
  - split; [eauto|done].
  - destruct s as [|b s]; [split; [done|by intros [? ?]]|].
    rewrite andb_true_iff, IH. split.
    + intros [<-%Ascii.eqb_eq [t ->]]. eauto.
    + intros [t [= <- ->]]. rewrite Ascii.eqb_refl. eauto.
Qed.

Lemma endswith_spec suf s : endswith suf s = true <-> exists pre, s = pre ++ suf.
Proof.
  unfold endswith. rewrite startswith_spec. split.
  - intros [t Ht]. exists (rev t).
    apply (f_equal (@rev ascii)) in Ht. rewrite rev_involutive in Ht.
    by rewrite Ht, rev_app_distr, rev_involutive.
  - intros [pre ->]. exists (rev pre). by rewrite rev_app_distr.
Qed.

Lemma endswith_nonempty suf s : suf <> [] -> endswith suf s = true -> s <> [].
Proof.
  intros Hne [pre ->]%endswith_spec. destruct pre, suf; done.
Qed.

Lemma in_root_domain_true self url :
  in_root_domain self url = Ok true <->
  exists p pre, urlparse url = Ok p /\ netloc p = pre ++ root self.
Proof.
  unfold in_root_domain. destruct (urlparse url) as [p|e]; simpl.
  - split.
    + intros [= H]. apply endswith_spec in H as [pre H]. eauto.
    + intros (p' & pre & [= <-] & H). f_equal. apply endswith_spec. eauto.
  - split; [done|]. by intros (? & ? & ? & _).
Qed.

Lemma should_add_true self w :
  should_add self w = Ok true ->
  exists x, w = Some x /\ (x ∉ seen_urls self)
            /\ in_root_domain self x = Ok true.
Proof.
  destruct w as [[|c u]|]; try done. simpl.
  case_bool_decide; [|done]. eauto.
Qed.

(** The three ways [add_url] can end. *)
Lemma add_url_cases self u :
  (exists e, add_url u self = (Raise e, self))
  \/ (exists w, normalize self u = Ok w /\ should_add self w = Ok false
        /\ add_url u self = (Ok tt, self))
  \/ (exists x, normalize self u = Ok (Some x)
        /\ should_add self (Some x) = Ok true
        /\ add_url u self
           = (Ok tt,
              {| root := root self; base_url := base_url self;
                 seen_urls := seen_urls self ∪ {[ x ]};
                 work_urls := work_urls self ∪ {[ x ]};
                 emails := emails self |})).
Proof.
  unfold add_url. destruct (normalize self u) as [w|e]; [|left; eauto].
  destruct (should_add self w) as [[]|e] eqn:E; [|right; left; eauto|left; eauto].
  right; right. destruct (should_add_true _ _ E) as (x & -> & _). eauto.
Qed.

Lemma bad_brackets_contains N :
  bad_brackets N = true -> contains "[" N = true \/ contains "]" N = true.
Proof.
  unfold bad_brackets.
  intros [[? _]%andb_true_iff|[? _]%andb_true_iff]%orb_true_iff; auto.
Qed.

Lemma urlparse_raise v e :
  urlparse v = Raise e ->
  e = ValueError /\ (contains "[" v = true \/ contains "]" v = true).
Proof.
  rewrite urlparse_eq, urlsplit_eq. intros H.
  assert (exists sch n, urlsplit_tail sch (drop n v) = Raise e) as (sch & n & Ht).
  { destruct (scheme_end v) as [i|].
    - destruct (urlsplit_tail _ (drop (S i) v)) eqn:E; [done|].
      injection H as <-. eauto.
    - destruct (urlsplit_tail [] v) eqn:E; [done|]. injection H as <-.
      exists [], 0. done. }
  clear H. rewrite urlsplit_tail_eq in Ht.
  case_bool_decide; [|done]. cbn zeta in Ht.
  destruct (bad_brackets _) eqn:Eb; [|done]. injection Ht as <-.
  split; [done|].
  destruct (before_take is_delim3 (drop 2 (drop n v))) as [k Hk].
  rewrite Hk in Eb.
  destruct (contains "[" v) eqn:E1; [by left|].
  destruct (contains "]" v) eqn:E2; [by right|]. exfalso.
  apply bad_brackets_contains in Eb. unfold contains in *.
  rewrite !existsb_take in Eb by auto using existsb_drop.
  by destruct Eb.
Qed.

Lemma bracket_free_Forall s :
  bracket_free s <->
  Forall (fun c => Ascii.eqb "[" c = false /\ Ascii.eqb "]" c = false) s.
Proof.
  unfold bracket_free, contains. rewrite !existsb_Forall.
  rewrite Forall_and. done.
Qed.

Lemma urlparse_bracket_free v :
  bracket_free v -> exists p, urlparse v = Ok p.
Proof.
  intros [H1 H2]. destruct (urlparse v) as [p|e] eqn:E; [eauto|].
  apply urlparse_raise in E as [_ [?|?]]; congruence.
Qed.

Lemma normalize_bracket_free self x w :
  bracket_free (absolute self x) -> normalize self (Some x) = Ok (Some w) ->
  bracket_free w.
Proof.
  intros Hb (x' & p & [= <-] & _ & Hp & -> & Hwf & _)%normalize_Some.
  apply bracket_free_Forall in Hb.
  destruct (urlparse_forall _ _ _ Hp Hb) as [HN HP].
  apply bracket_free_Forall, unparse3_forall; try done.
  destruct Hwf as (Hs & _). revert Hs. apply is_scheme_Forall.
  intros c Hc. split.
  - destruct (Ascii.eqb_spec "[" c) as [<-|]; done.
  - destruct (Ascii.eqb_spec "]" c) as [<-|]; done.
Qed.

Lemma add_url_bracket_free self x :
  bracket_free (absolute self x) -> (add_url (Some x) self).1 = Ok tt.
Proof.
  intros Hb. unfold add_url.
  destruct (normalize self (Some x)) as [[w|]|e] eqn:E; [|done|].
  - pose proof (normalize_bracket_free _ _ _ Hb E) as Hw.
    destruct (urlparse_bracket_free w Hw) as [p Hp].
    destruct (normalize_shape _ _ _ E) as (_ & [z ->] & _).
    cbn [py list_ascii_of_string app should_add] in *.
    case_bool_decide; [|done].
    unfold in_root_domain. rewrite Hp. simpl. by destruct (endswith _ _).
  - destruct x as [|c u]; [done|]. rewrite normalize_eq in E.
    destruct (startswith _ _); [|done]. simpl in E.
    destruct (urlparse_bracket_free _ Hb) as [p Hp]. rewrite Hp in E. done.
Qed.

End UrlCollectionFacts.

(** ** The frontier under its operations *)

Lemma extends_refl a : extends a a.
Proof. by repeat split. Qed.

Lemma extends_trans a b c : extends a b -> extends b c -> extends a c.
Proof.
  intros (? & ? & ? & ? & ?) (? & ? & ? & ? & ?).
  split_and!; [congruence|congruence|by etrans|by etrans|auto].
Qed.

Lemma add_url_extends url self : extends self (add_url url self).2.
Proof.
  destruct (add_url_cases self url)
    as [[e H]|[(w & _ & _ & H)|(y & _ & _ & H)]]; rewrite H;
    [apply extends_refl..|].
  split_and!; simpl; [done|done|apply union_subseteq_l|done|].
  intros Hw. by apply union_mono_r.
Qed.

Lemma add_urls_extends urls self : extends self (add_urls urls self).2.
Proof.
  revert self. induction urls as [|u urls IH]; intros self;
    [apply extends_refl|]. simpl.
  pose proof (add_url_extends u self) as H.
  destruct (add_url u self) as [[[]|e] self']; simpl in *; [|done].
  eapply extends_trans; [exact H|apply IH].
Qed.

Lemma add_email_extends email self : extends self (add_email email self).2.
Proof. split_and!; simpl; [done|done|done|apply union_subseteq_l|done]. Qed.

Lemma next_extends pick self : extends self (next pick self).2.
Proof.
  unfold next. destruct (elements _); [apply extends_refl|].
  split_and!; simpl; [done..|].
  intros Hw. by apply subseteq_difference_l.
Qed.

Lemma load_and_parse_extends web url self :
  extends self (load_and_parse web url self).2.
Proof.
  unfold load_and_parse.
  destruct (web url) as [| |cur hrefs body]; [apply extends_refl..|].
  destruct (do n <- normalize self cur; should_parse self n) as [[]|e];
    [|apply extends_refl..].
  pose proof (add_urls_extends hrefs self) as H.
  by destruct (add_urls hrefs self) as [[[]|e] self'].
Qed.

Lemma download_and_parse_extends env url self :
  extends self (download_and_parse env url self).2.
Proof.
  unfold download_and_parse.
  destruct (bs4 env); [|apply extends_refl].
  destruct (requests_get env url) as [text|]; [|apply extends_refl].
  destruct (BeautifulSoup env text) as [hrefs|e]; [|apply extends_refl].
  pose proof (add_urls_extends (Some <$> hrefs) self) as H.
  by destruct (add_urls (Some <$> hrefs) self) as [[[]|e] self'].
Qed.

Lemma run_step_extends web env pick st self :
  extends self (run_step web env pick st self).
Proof.
  destruct st; simpl.
  - apply add_url_extends.
  - apply add_email_extends.
  - apply next_extends.
  - apply load_and_parse_extends.
  - apply download_and_parse_extends.
Qed.

Lemma run_steps_extends web env pick steps self :
  extends self (run_steps web env pick steps self).
Proof.
  unfold run_steps. revert self.
  induction steps as [|st steps IH]; intros self; [apply extends_refl|].
  simpl. eapply extends_trans; [apply run_step_extends|apply IH].
Qed.

Lemma nth_mod_elem (l : list str) (x : str) (i : nat) :
  nth (i mod length (x :: l)) (x :: l) x ∈ x :: l.
Proof.
  apply list_elem_of_In, nth_In. apply Nat.mod_upper_bound. done.
Qed.

Lemma normalize_base (a b : UrlCollection) (url : option str) :
  base_url a = base_url b -> normalize a url = normalize b url.
Proof.
  intros H. destruct url as [[|c u]|]; try done.
  rewrite !normalize_eq. unfold absolute. by rewrite H.
Qed.

Lemma grows_refl a : grows a a.
Proof. split_and!; auto. Qed.

Lemma in_root_domain_root (a b : UrlCollection) (x : str) :
  root a = root b -> in_root_domain a x = in_root_domain b x.
Proof. unfold in_root_domain. by intros ->. Qed.

Lemma grows_trans a b c : grows a b -> grows b c -> grows a c.
Proof.
  intros (Hr & Hb & Hs & Hw & Hn) (Hr' & Hb' & Hs' & Hw' & Hn').
  split_and!; [congruence|congruence|by etrans|auto|].
  intros x Hx. destruct (Hn' x Hx) as [Hx'|[Hx' Hd]]; [auto|].
  right. split; [intros ?; apply Hx'; by apply Hs|].
  by rewrite (in_root_domain_root a b).
Qed.

Lemma add_url_grows url self : grows self (add_url url self).2.
Proof.
  destruct (add_url_cases self url)
    as [[e H]|[(w & _ & _ & H)|(y & _ & Hs & H)]]; rewrite H;
    [apply grows_refl..|].
  apply should_add_true in Hs as (? & [= <-] & Hnot & Hd).
  split_and!; simpl; [done|done|apply union_subseteq_l| |].
  - intros Hw. by apply union_mono_r.
  - intros x [?|Hx%elem_of_singleton]%elem_of_union; [by left|].
    subst x. by right.
Qed.

Lemma add_urls_grows urls self : grows self (add_urls urls self).2.
Proof.
  revert self. induction urls as [|u urls IH]; intros self;
    [apply grows_refl|]. simpl.
  pose proof (add_url_grows u self) as H.
  destruct (add_url u self) as [[[]|e] self']; simpl in *; [|done].
  eapply grows_trans; [exact H|apply IH].
Qed.

Lemma load_and_parse_grows web url self :
  grows self (load_and_parse web url self).2.
Proof.
  unfold load_and_parse.
  destruct (web url) as [| |cur hrefs body]; [apply grows_refl..|].
  destruct (do n <- normalize self cur; should_parse self n) as [[]|e];
    [|apply grows_refl..].
  pose proof (add_urls_grows hrefs self) as H.
  by destruct (add_urls hrefs self) as [[[]|e] self'].
Qed.

(** What [next] does, as equations. *)
Lemma next_cases pick self :
  (work_urls self = ∅ /\ next pick self = (Ok None, self))
  \/ (exists url, url ∈ work_urls self
        /\ next pick self
           = (Ok (Some url),
              {| root := root self; base_url := base_url self;
                 seen_urls := seen_urls self;
                 work_urls := work_urls self ∖ {[ url ]};
                 emails := emails self |})).
Proof.
  unfold next. destruct (elements (work_urls self)) as [|x l] eqn:E.
  - left. split; [|done]. by apply elements_empty_inv in E; apply leibniz_equiv.
  - right. eexists. split; [|done].
    apply elem_of_elements. rewrite E. apply nth_mod_elem.
Qed.

Lemma pulls_inv web pick fuel uc l :
  pulls web pick fuel uc = Some l ->
  work_urls uc ⊆ seen_urls uc ->
  NoDup l
  /\ (forall u, u ∈ l ->
        u ∈ work_urls uc
        \/ ((u ∉ seen_urls uc) /\ in_root_domain uc u = Ok true)).
Proof.
  revert uc l. induction fuel as [|fuel IH]; intros uc l; [done|]. simpl.
  destruct (next_cases pick uc) as [[_ ->]|(url & Hin & ->)].
  { intros [= <-] _. split; [constructor|]. by intros u ?%elem_of_nil. }
  set (uc1 := {| root := root uc |}).
  pose proof (load_and_parse_grows web url uc1) as (Hr & _ & Hs & Hw & Hn).
  destruct (load_and_parse web url uc1) as [[v|e] uc2]; simpl in *.
  2:{ intros [= <-] _. split; [apply NoDup_singleton|].
      intros u ->%list_elem_of_singleton. by left. }
  destruct (pulls web pick fuel uc2) as [l'|] eqn:E; [|done].
  intros [= <-] Hsub.
  assert (work_urls uc2 ⊆ seen_urls uc2) as Hsub2.
  { apply Hw. etrans; [apply subseteq_difference_l; reflexivity|done]. }
  destruct (IH _ _ E Hsub2) as [Hnd Hl'].
  assert (forall u, u ∈ l' ->
            (u ∈ work_urls uc /\ u <> url)
            \/ ((u ∉ seen_urls uc) /\ in_root_domain uc u = Ok true)) as Hcl.
  { intros u Hu. destruct (Hl' u Hu) as [Hu2|[Hu2 Hd]].
    - destruct (Hn u Hu2) as [Hu1|[Hu1 Hd]].
      + left. apply elem_of_difference in Hu1 as [? Hne].
        split; [done|]. intros ->. apply Hne. by apply elem_of_singleton.
      + right. done.
    - right. split; [intros ?; apply Hu2; by apply Hs|].
      by rewrite <- (in_root_domain_root uc2 uc) by done. }
  split.
  - constructor; [|done]. intros Hu.
    destruct (Hcl url Hu) as [[_ ?]|[Hns _]]; [done|]. apply Hns. by apply Hsub.
  - intros u [->|Hu]%elem_of_cons; [by left|].
    destruct (Hcl u Hu) as [[? _]|?]; auto.
Qed.

Lemma crawl_pulls web pick fuel uc :
  crawl web pick fuel uc = None <-> pulls web pick fuel uc = None.
Proof.
  revert uc. induction fuel as [|fuel IH]; intros uc; simpl; [done|].
  destruct (next pick uc) as [[[url|]|e] uc1]; [|done..].
  destruct (load_and_parse web url uc1) as [[v|e] uc2]; [|done].
  specialize (IH uc2).
  destruct (crawl web pick fuel uc2) as [[[vs|e] uc3]|],
           (pulls web pick fuel uc2) as [l|];
    destruct IH as [IH1 IH2]; split; try done; intros _;
    try discriminate (IH1 eq_refl); try discriminate (IH2 eq_refl).
Qed.

(** * The claims *)

Example init_example : __init__ (py "example.com") = Ok example_uc.
Proof. vm_compute. reflexivity. Qed.

(** ** normalize: what it rejects (C5) *)

(** C5, as stated, fails: "httpx://example.com/" starts with neither the
    scheme http nor the scheme https after resolution and lower-casing, and
    [normalize] returns it instead of rejecting it. *)
Lemma normalize_accepts_httpx :
  has_web_scheme (absolute example_uc (py "httpx://example.com/")) = false
  /\ normalize example_uc (Some (py "httpx://example.com/"))
     = Ok (Some (py "httpx://example.com/")).
Proof. split; vm_compute; reflexivity. Qed.

(** C5, amended: [normalize] returns None for every input that, after
    relative-link resolution and lower-casing, does not start with the four
    characters "http" (a prefix test, not a test of the scheme), and for the
    empty and the absent input. *)
Theorem normalize_rejects_non_http (self : UrlCollection) (url : str) :
  startswith (py "http") (absolute self url) = false ->
  normalize self (Some url) = Ok None.
Proof.
  intros H. destruct url as [|c u]; [done|].
  rewrite normalize_eq, H. done.
Qed.

Lemma normalize_rejects_non_http_witness :
  startswith (py "http") (absolute example_uc (py "ftp://example.com/x")) = false
  /\ normalize example_uc (Some (py "ftp://example.com/x")) = Ok None.
Proof.
  split; [vm_compute; reflexivity|].
  apply (normalize_rejects_non_http example_uc (py "ftp://example.com/x")).
  vm_compute. reflexivity.
Defined.

(** ** normalize: idempotence (C7) *)

(** C7, as stated, fails: normalize("http://////x") is "http:////x", and
    normalizing that again gives "http://x". *)
Lemma normalize_not_idempotent :
  normalize example_uc (Some (py "http://////x")) = Ok (Some (py "http:////x"))
  /\ normalize_twice example_uc (Some (py "http://////x"))
     = Ok (Some (py "http://x"))
  /\ normalize_twice example_uc (Some (py "http://////x"))
     <> normalize example_uc (Some (py "http://////x")).
Proof. split_and!; vm_compute; [reflexivity|reflexivity|discriminate]. Qed.

(** C7, amended: normalize(normalize(u)) equals normalize(u), also when
    normalize(u) is None or raises, for every u except those that parse
    (after resolution and lower-casing) with an empty host and a path that
    begins with "//". *)
Theorem normalize_idempotent (self : UrlCollection) (url : option str) :
  hostless_double_slash self url = false ->
  normalize_twice self url = normalize self url.
Proof.
  intros Hh. unfold normalize_twice.
  destruct (normalize self url) as [[w|]|e] eqn:E; [|done..].
  simpl. destruct (normalize_again _ _ _ E) as [(p' & _ & _ & Hn)|Hodd];
    [apply Hn|].
  destruct Hodd as (x & p & -> & Hp & HN & H2 & _).
  unfold hostless_double_slash in Hh. rewrite Hp in Hh.
  rewrite !bool_decide_eq_true_2 in Hh by done. done.
Qed.

Lemma normalize_idempotent_witness :
  hostless_double_slash example_uc (Some (py "/About?x=1")) = false
  /\ normalize_twice example_uc (Some (py "/About?x=1"))
     = normalize example_uc (Some (py "/About?x=1")).
Proof.
  split; [vm_compute; reflexivity|].
  apply (normalize_idempotent example_uc (Some (py "/About?x=1"))).
  vm_compute. reflexivity.
Defined.

(** ** normalize: what survives (C8) *)

(** C8: the result of [normalize] is lower-case and has no query string and
    no fragment; parsed again it has no query, no fragment and no
    parameters: it is the scheme, host and path of the input put together.
    In particular normalize("HTTPS://Example.com/Path?x=1#frag") is
    "https://example.com/path". *)
Theorem normalize_keeps_scheme_host_path
  (self : UrlCollection) (url : option str) (w : str) :
  normalize self url = Ok (Some w) ->
  (lower w = w /\ contains "?" w = false /\ contains "#" w = false
   /\ (exists x p, url = Some x /\ urlparse (absolute self x) = Ok p
         /\ w = urlunparse (scheme p) (netloc p) (path p) None None None)
   /\ (forall p', urlparse w = Ok p' ->
         params p' = [] /\ query p' = [] /\ fragment p' = []))
  /\ normalize self (Some (py "HTTPS://Example.com/Path?x=1#frag"))
     = Ok (Some (py "https://example.com/path")).
Proof.
  intros H. split; [|vm_compute; reflexivity].
  destruct (normalize_shape _ _ _ H) as (Hl & _ & Hd).
  split_and!; try done.
  - revert Hd. apply existsb_weaken. intros c. unfold is_delim2. intros ->.
    apply orb_true_r.
  - revert Hd. apply existsb_weaken. intros c. unfold is_delim2. by intros ->.
  - destruct (normalize_Some _ _ _ H) as (x & p & -> & _ & Hp & -> & _).
    eauto.
  - intros p' Hp'.
    destruct (normalize_again _ _ _ H) as [(p'' & Hp'' & Hc & _)|Hodd].
    + assert (p'' = p') as -> by congruence. exact Hc.
    + destruct Hodd as (_ & _ & _ & _ & _ & _ & [?|(p'' & Hp'' & Hc & _)]);
        [congruence|].
      assert (p'' = p') as -> by congruence. exact Hc.
Qed.

Lemma normalize_keeps_scheme_host_path_witness :
  normalize example_uc (Some (py "HTTPS://Example.com/Path;v=2?x=1#frag"))
  = Ok (Some (py "https://example.com/path"))
  /\ contains "?" (py "https://example.com/path") = false.
Proof.
  split; [vm_compute; reflexivity|].
  apply (normalize_keeps_scheme_host_path example_uc
           (Some (py "HTTPS://Example.com/Path;v=2?x=1#frag"))
           (py "https://example.com/path")).
  vm_compute. reflexivity.
Defined.


(** ** normalize: the root path (C10) *)

(** C10: [normalize] leaves "http://example.com" and "http://example.com/"
    as they are, so they are two dedup keys: after the seed "example.com"
    the second one is still admitted to seen and pending, and a crawl
    fetches both pages (it returns the emails of both). *)
Theorem normalize_root_path_distinct
  (self : UrlCollection) (pick : gset str -> nat) :
  normalize self (Some (py "http://example.com"))
  = Ok (Some (py "http://example.com"))
  /\ normalize self (Some (py "http://example.com/"))
     = Ok (Some (py "http://example.com/"))
  /\ py "http://example.com" <> py "http://example.com/"
  /\ add_url (Some (py "http://example.com/")) example_uc
     = (Ok tt,
        {| root := py "example.com"; base_url := py "http://example.com";
           seen_urls := {[ py "http://example.com" ]} ∪ {[ py "http://example.com/" ]};
           work_urls := {[ py "http://example.com" ]} ∪ {[ py "http://example.com/" ]};
           emails := ∅ |})
  /\ main (Ok web_root) pick 3 (py "example.com")
     = Some (Ok (PSet ({[ py "a@example.com" ]} ∪ {[ py "b@example.com" ]})),
             Some {| root := py "example.com";
                     base_url := py "http://example.com";
                     seen_urls := {[ py "http://example.com" ]}
                                  ∪ {[ py "http://example.com/" ]};
                     work_urls := ∅;
                     emails := ∅ |}).
Proof.
  split_and!; try (vm_compute; reflexivity). done.
Qed.


(** ** The root-domain boundary (C6) *)

(** C6: [in_root_domain] answers true exactly when the host of the url
    (the netloc [urlparse] finds, which is also where [root] comes from)
    ends with [root] as a string; and whatever [add_url] adds to seen has
    such a host. *)
Theorem in_root_domain_suffix (self : UrlCollection) (url : str) :
  (in_root_domain self url = Ok true <->
     exists p pre, urlparse url = Ok p /\ netloc p = pre ++ root self)
  /\ (forall u r self' x,
        add_url u self = (r, self') ->
        x ∈ seen_urls self' -> x ∉ seen_urls self ->
        exists p pre, urlparse x = Ok p /\ netloc p = pre ++ root self).
Proof.
  split; [apply in_root_domain_true|].
  intros u r self' x Ha Hin Hnot.
  destruct (add_url_cases self u)
    as [[e H]|[(w & _ & _ & H)|(y & _ & Hs & H)]];
    rewrite H in Ha; injection Ha as <- <-; try done.
  simpl in Hin. apply elem_of_union in Hin as [?|Hx%elem_of_singleton];
    [done|subst x].
  apply should_add_true in Hs as (? & [= <-] & _ & Hd).
  by apply in_root_domain_true.
Qed.

(** The boundary is a plain suffix test: a subdomain and a longer name that
    merely ends with the root are inside, another domain is not. *)
Example in_root_domain_examples :
  in_root_domain example_uc (py "https://blog.example.com/x") = Ok true
  /\ in_root_domain example_uc (py "https://notexample.com/x") = Ok true
  /\ in_root_domain example_uc (py "https://example.com.evil.com/x") = Ok false
  /\ in_root_domain example_uc (py "http://example.com:8080/") = Ok false.
Proof. split_and!; vm_compute; reflexivity. Qed.

Lemma in_root_domain_suffix_witness :
  in_root_domain example_uc (py "http://blog.example.com/x") = Ok true
  /\ exists p pre, urlparse (py "http://example.com/about") = Ok p
                   /\ netloc p = pre ++ root example_uc.
Proof.
  split.
  - apply (proj1 (in_root_domain_suffix example_uc
                    (py "http://blog.example.com/x"))).
    exists (mkParse (py "http") (py "blog.example.com") (py "/x") [] [] []),
           (py "blog.").
    split; vm_compute; reflexivity.
  - eapply (proj2 (in_root_domain_suffix example_uc [])
              (Some (py "/about")) _ _ (py "http://example.com/about")).
    + vm_compute. reflexivity.
    + apply (bool_decide_unpack _). vm_compute. exact I.
    + apply (bool_decide_unpack _). vm_compute. exact I.
Defined.

(** ** add_url (C9) *)

(** C9, as stated, fails: add_url("http://[") raises ValueError, the
    "Invalid IPv6 URL" of urlparse. *)
Lemma add_url_raises_on_bracket :
  add_url (Some (py "http://[")) example_uc = (Raise ValueError, example_uc).
Proof. vm_compute. reflexivity. Qed.

(** C9, amended: [add_url] is atomic.  It either raises, and then it is the
    ValueError of urlparse and the frontier is unchanged, or it returns the
    frontier; then the frontier is unchanged when the normalized url fails
    [should_add], and otherwise the normalized url has been put into both
    seen and pending and nothing else changed.  For a url of characters
    below U+0100 (the strings of this embedding) it does not raise when the
    url, resolved and lower-cased, has no square bracket: on these
    characters the NFKC check of urlparse always passes
    ([checknetloc_ok]).  A host with wider characters can fail that check,
    with the same ValueError. *)
Theorem add_url_atomic (self : UrlCollection) (url : option str) :
  match add_url url self with
  | (Raise e, self') => e = ValueError /\ self' = self
  | (Ok _, self') =>
      exists w, normalize self url = Ok w /\
        ((should_add self w = Ok false /\ self' = self)
         \/ (should_add self w = Ok true /\
             exists x, w = Some x /\
               self' = {| root := root self; base_url := base_url self;
                          seen_urls := seen_urls self ∪ {[ x ]};
                          work_urls := work_urls self ∪ {[ x ]};
                          emails := emails self |}))
  end
  /\ ((forall x, url = Some x -> bracket_free (absolute self x)) ->
      (add_url url self).1 = Ok tt).
Proof.
  split.
  - unfold add_url. destruct (normalize self url) as [w|e] eqn:En.
    + destruct (should_add self w) as [[]|e] eqn:Es.
      * exists w. split; [done|]. right. split; [done|].
        destruct (should_add_true _ _ Es) as (x & -> & _). eauto.
      * exists w. auto.
      * split; [|done]. destruct w as [[|c u]|]; try done. simpl in Es.
        case_bool_decide; [|done]. unfold in_root_domain in Es.
        destruct (urlparse (c :: u)) eqn:Ep; [done|]. injection Es as <-.
        by apply urlparse_raise in Ep as [-> _].
    + split; [|done]. destruct url as [[|c u]|]; try done.
      rewrite normalize_eq in En. destruct (startswith _ _); [|done].
      simpl in En. destruct (urlparse _) eqn:Ep; [done|]. injection En as <-.
      by apply urlparse_raise in Ep as [-> _].
  - intros Hb. destruct url as [x|]; [|done].
    apply add_url_bracket_free. auto.
Qed.

Lemma add_url_atomic_witness :
  bracket_free (absolute example_uc (py "/About?x=1"))
  /\ (add_url (Some (py "/About?x=1")) example_uc).1 = Ok tt.
Proof.
  split; [split; vm_compute; reflexivity|].
  apply (proj2 (add_url_atomic example_uc (Some (py "/About?x=1")))).
  intros x [= <-]. split; vm_compute; reflexivity.
Defined.


(** ** The frontier's seen set (C3, C4) *)

Example init_query_seed :
  __init__ (py "http://example.com/?q") = Ok query_seed_uc.
Proof. vm_compute. reflexivity. Qed.

Example init_httpbin : __init__ (py "httpbin.org") = Ok httpbin_uc.
Proof. vm_compute. reflexivity. Qed.

(** C3, as stated, fails: for the seed "http://example.com/?q" the
    constructor puts the seed itself into seen, while [normalize] maps it to
    "http://example.com/", which is not in seen. *)
Lemma seen_lacks_normalized_seed :
  __init__ (py "http://example.com/?q") = Ok query_seed_uc
  /\ normalize query_seed_uc (Some (py "http://example.com/?q"))
     = Ok (Some (py "http://example.com/"))
  /\ py "http://example.com/" ∉ seen_urls query_seed_uc.
Proof.
  split_and!; [vm_compute; reflexivity..|].
  unfold query_seed_uc. simpl. by apply not_elem_of_singleton.
Qed.

(** C3, amended: from construction onward and after every operation
    (add_url, add_email, next), seen contains the seed as the constructor
    rewrites it: stripped, lower-cased, and with "http://" in front when it
    does not start with "http".  It is not passed through [normalize]. *)
Theorem seen_keeps_seed (pick : gset str -> nat) (seed : str)
  (uc : UrlCollection) (ops : list op) :
  __init__ seed = Ok uc ->
  site_of seed ∈ seen_urls (run_ops pick ops uc).
Proof.
  intros Hinit.
  assert (site_of seed ∈ seen_urls uc) as Hin.
  { unfold __init__ in Hinit. destruct (urlparse _); [|done].
    injection Hinit as <-. simpl. by apply elem_of_singleton. }
  clear Hinit. revert uc Hin. unfold run_ops.
  induction ops as [|o ops IH]; intros uc Hin; [done|]. simpl.
  apply IH. destruct o as [u|e|]; simpl; [|done|].
  - destruct (add_url_cases uc u) as [[e H]|[(w & _ & _ & H)|(y & _ & _ & H)]];
      rewrite H; simpl; [done..|]. by apply elem_of_union_l.
  - unfold next. by destruct (elements _).
Qed.

Lemma seen_keeps_seed_witness :
  __init__ (py " Example.COM/?q ") =
    Ok {| root := py "example.com"; base_url := py "http://example.com";
          seen_urls := {[ py "http://example.com/?q" ]};
          work_urls := {[ py "http://example.com/?q" ]}; emails := ∅ |}
  /\ py "http://example.com/?q"
     ∈ seen_urls (run_ops (fun _ => 0)
                    [AddUrl (Some (py "/a")); Next; AddEmail (py "a@b.c")]
                    {| root := py "example.com";
                       base_url := py "http://example.com";
                       seen_urls := {[ py "http://example.com/?q" ]};
                       work_urls := {[ py "http://example.com/?q" ]};
                       emails := ∅ |}).
Proof.
  split; [vm_compute; reflexivity|].
  apply (seen_keeps_seed (fun _ => 0) (py " Example.COM/?q ")).
  vm_compute. reflexivity.
Defined.

(** C4, as stated, fails: after the seed "http://example.com/?q",
    add_url("http://example.com/") is admitted, and seen then holds the two
    distinct strings "http://example.com/?q" and "http://example.com/",
    which normalize to the same value. *)
Lemma seen_holds_two_forms_of_seed :
  let uc := run_add_urls [Some (py "http://example.com/")] query_seed_uc in
  py "http://example.com/?q" ∈ seen_urls uc
  /\ py "http://example.com/" ∈ seen_urls uc
  /\ py "http://example.com/?q" <> py "http://example.com/"
  /\ normalize uc (Some (py "http://example.com/?q"))
     = Ok (Some (py "http://example.com/"))
  /\ normalize uc (Some (py "http://example.com/"))
     = Ok (Some (py "http://example.com/")).
Proof.
  split_and!; try (vm_compute; reflexivity); try done;
    apply (bool_decide_unpack _); vm_compute; exact I.
Qed.

(** With an empty root every host is in the root domain, and a url and its
    normal form can both be admitted. *)
Example empty_root_admits_two_forms :
  let uc := run_add_urls [Some (py "http://////x"); Some (py "http:////x")]
              httpbin_uc in
  py "http:////x" ∈ seen_urls uc
  /\ py "http://x" ∈ seen_urls uc
  /\ normalize uc (Some (py "http:////x")) = Ok (Some (py "http://x"))
  /\ normalize uc (Some (py "http://x")) = Ok (Some (py "http://x")).
Proof.
  split_and!; try (vm_compute; reflexivity);
    apply (bool_decide_unpack _); vm_compute; exact I.
Qed.

Lemma size_add_fresh (X : gset str) (x : str) :
  x ∉ X -> size (X ∪ {[ x ]}) = S (size X).
Proof.
  intros H. rewrite size_union by set_solver. rewrite size_singleton. lia.
Qed.

Lemma run_add_urls_inv (site : str) (urls : list (option str))
  (self : UrlCollection) :
  root self <> [] ->
  (forall x, x ∈ seen_urls self -> x <> site ->
             forall self', normalize self' (Some x) = Ok (Some x)) ->
  forall x, x ∈ seen_urls (run_add_urls urls self) -> x <> site ->
            forall self', normalize self' (Some x) = Ok (Some x).
Proof.
  unfold run_add_urls. revert self.
  induction urls as [|u urls IH]; intros self Hroot Hinv; [done|]. simpl.
  destruct (add_url_cases self u)
    as [[e H]|[(w & _ & _ & H)|(y & Hn & Hs & H)]]; rewrite H; simpl;
    [by apply IH..|].
  apply IH; [done|]. simpl. intros x Hin Hx.
  apply elem_of_union in Hin as [?|Hy%elem_of_singleton]; [by apply Hinv|].
  subst x. apply should_add_true in Hs as (? & [= <-] & _ & Hd).
  apply in_root_domain_true in Hd as (p & pre & Hp & HN).
  assert (netloc p <> []) as Hne.
  { rewrite HN. destruct pre, (root self); done. }
  destruct (normalize_again _ _ _ Hn) as [(_ & _ & _ & Hfix)|Hodd]; [done|].
  destruct Hodd as (_ & _ & _ & _ & _ & _ & [?|(p' & Hp' & _ & ?)]);
    [congruence|]. assert (p' = p) as -> by congruence. done.
Qed.

(** C4, amended: for every seed with a non-empty host and every sequence of
    add_url calls, every string in seen other than the seed entry is its own
    normal form, so seen never contains two distinct strings that normalize
    to the same value unless one of them is the seed entry (which the
    constructor does not pass through [normalize]); and each add_url call
    that admits its argument increases the cardinality of seen by exactly
    1. *)
Theorem seen_dedup (seed : str) (uc0 : UrlCollection)
  (urls : list (option str)) :
  __init__ seed = Ok uc0 -> root uc0 <> [] ->
  let uc := run_add_urls urls uc0 in
  (forall x y, x ∈ seen_urls uc -> y ∈ seen_urls uc -> x <> y ->
               x <> site_of seed -> y <> site_of seed ->
               normalize uc (Some x) = Ok (Some x)
               /\ normalize uc (Some y) = Ok (Some y)
               /\ normalize uc (Some x) <> normalize uc (Some y))
  /\ (forall url w, normalize uc url = Ok w -> should_add uc w = Ok true ->
        size (seen_urls (add_url url uc).2) = S (size (seen_urls uc))).
Proof.
  intros Hinit Hroot uc. split.
  - assert (forall x, x ∈ seen_urls uc -> x <> site_of seed ->
              forall self', normalize self' (Some x) = Ok (Some x)) as Hfix.
    { apply run_add_urls_inv; [done|]. intros x Hin Hx.
      unfold __init__ in Hinit. destruct (urlparse _); [|done].
      injection Hinit as <-. simpl in Hin.
      by apply elem_of_singleton in Hin. }
    intros x y Hx Hy Hxy Hxs Hys.
    rewrite (Hfix x), (Hfix y) by done. split_and!; congruence.
  - intros url w Hn Hs. unfold add_url. rewrite Hn, Hs. simpl.
    apply should_add_true in Hs as (x & -> & Hnot & _). simpl.
    by apply size_add_fresh.
Qed.

Lemma seen_dedup_witness :
  __init__ (py "http://example.com/?q") = Ok query_seed_uc
  /\ root query_seed_uc <> []
  /\ size (seen_urls
             (add_url (Some (py "/c"))
                (run_add_urls [Some (py "/a"); Some (py "/A?x"); Some (py "/b")]
                   query_seed_uc)).2)
     = S (size (seen_urls
                  (run_add_urls [Some (py "/a"); Some (py "/A?x"); Some (py "/b")]
                     query_seed_uc))).
Proof.
  split; [vm_compute; reflexivity|]. split; [done|].
  apply (proj2 (seen_dedup (py "http://example.com/?q") query_seed_uc
                  [Some (py "/a"); Some (py "/A?x"); Some (py "/b")]
                  init_query_seed ltac:(done))
           (Some (py "/c")) (Some (py "http://example.com/c")));
    vm_compute; reflexivity.
Defined.


(** ** The crawl (C1, C2) *)

Section CrawlFacts.

Variable web : str -> page.
Variable pick : gset str -> nat.

Lemma add_url_emails url self : emails (add_url url self).2 = emails self.
Proof.
  destruct (add_url_cases self url)
    as [[e H]|[(w & _ & _ & H)|(y & _ & _ & H)]]; by rewrite H.
Qed.

Lemma add_urls_emails urls self : emails (add_urls urls self).2 = emails self.
Proof.
  revert self. induction urls as [|u urls IH]; intros self; [done|]. simpl.
  pose proof (add_url_emails u self) as H.
  destruct (add_url u self) as [[[]|e] self']; simpl in *; [|done].
  by rewrite IH.
Qed.

Lemma load_and_parse_emails url self :
  emails (load_and_parse web url self).2 = emails self.
Proof.
  unfold load_and_parse. destruct (web url) as [| |cur hrefs body]; [done..|].
  destruct (do n <- normalize self cur; should_parse self n) as [[]|e];
    [|done..].
  pose proof (add_urls_emails hrefs self) as H.
  by destruct (add_urls hrefs self) as [[[]|e] self'].
Qed.

Lemma next_emails self : emails (next pick self).2 = emails self.
Proof. unfold next. by destruct (elements _). Qed.

Lemma crawl_emails fuel self r self' :
  crawl web pick fuel self = Some (r, self') -> emails self' = emails self.
Proof.
  revert self r self'.
  induction fuel as [|fuel IH]; intros self r self'; [done|]. simpl.
  pose proof (next_emails self) as Hn.
  destruct (next pick self) as [[[url|]|e] self1]; simpl in Hn.
  - pose proof (load_and_parse_emails url self1) as Hl.
    destruct (load_and_parse web url self1) as [[v|e] self2]; simpl in Hl.
    + destruct (crawl web pick fuel self2) as [[[vs|e] self3]|] eqn:Ec;
        [| |done]; intros [= <- <-]; apply IH in Ec; congruence.
    + intros [= <- <-]. congruence.
  - intros [= <- <-]. done.
  - intros [= <- <-]. done.
Qed.

End CrawlFacts.

Lemma py_set_members x s : py_set x = Ok s -> s = members x.
Proof. destruct x; simpl; congruence. Qed.

Lemma fold_union_raise e l :
  foldl (fun acc y => do a <- acc; union_emails a y) (Raise e) l = Raise e.
Proof. induction l as [|y l IH]; [done|]. simpl. apply IH. Qed.

Lemma fold_union_members x l v :
  foldl (fun acc y => do a <- acc; union_emails a y) (Ok x) l = Ok v ->
  members v = members x ∪ ⋃ (members <$> l).
Proof.
  revert x. induction l as [|y l IH]; intros x; simpl.
  - intros [= <-]. by rewrite union_empty_r_L.
  - unfold union_emails at 2.
    destruct (py_set x) as [sx|e] eqn:Ex; simpl;
      [|by rewrite fold_union_raise].
    destruct (py_set y) as [sy|e] eqn:Ey; simpl;
      [|by rewrite fold_union_raise].
    intros H%IH. rewrite H. simpl.
    apply py_set_members in Ex as ->. apply py_set_members in Ey as ->.
    symmetry. apply (assoc_L (∪)).
Qed.

Lemma reduce_members vs v :
  reduce union_emails vs = Ok v -> members v = ⋃ (members <$> vs).
Proof.
  destruct vs as [|x l]; [done|]. simpl. apply fold_union_members.
Qed.

(** C1, as stated, fails: on a site of one page with one address the run
    returns that address, while the frontier's emails set is empty. *)
Lemma run_result_is_not_frontier_emails :
  main (Ok web_mail) (fun _ => 0) 2 (py "example.com")
  = Some (Ok (PList [py "info@example.com"]),
          Some {| root := py "example.com"; base_url := py "http://example.com";
                  seen_urls := {[ py "http://example.com" ]};
                  work_urls := ∅; emails := ∅ |})
  /\ members (PList [py "info@example.com"]) <> (∅ : gset str).
Proof.
  split; [vm_compute; reflexivity|].
  simpl. intros H. assert (py "info@example.com" ∈ (∅ : gset str)) as Hin.
  { rewrite <- H. set_solver. }
  set_solver.
Qed.

Lemma load_and_parse_value web url uc v uc' :
  load_and_parse web url uc = (Ok v, uc') -> v = page_value web uc url.
Proof.
  unfold load_and_parse, page_value.
  destruct (web url) as [| |cur hrefs body]; [by intros [= <- _]|done|].
  destruct (do n <- normalize uc cur; should_parse uc n) as [[]|e];
    [|by intros [= <- _]|done].
  destruct (add_urls hrefs uc) as [[[]|e] uc1]; [|done]. by intros [= <- _].
Qed.

Lemma page_value_same web (a b : UrlCollection) url :
  root a = root b -> base_url a = base_url b ->
  page_value web a url = page_value web b url.
Proof.
  intros Hr Hb. unfold page_value. destruct (web url) as [| |cur hrefs body];
    [done..|].
  rewrite (normalize_base a b cur Hb).
  destruct (normalize b cur) as [[[|c w]|]|e]; simpl; try done.
  by rewrite (in_root_domain_root a b).
Qed.

Lemma members_page_value web uc url e :
  e ∈ members (page_value web uc url) <->
  exists cur hrefs l,
    web url = Page cur hrefs (Some l)
    /\ (do n <- normalize uc cur; should_parse uc n) = Ok true /\ e ∈ l.
Proof.
  unfold page_value. split.
  - destruct (web url) as [| |cur hrefs body]; simpl;
      [by intros ?%not_elem_of_empty..|].
    destruct (do n <- normalize uc cur; should_parse uc n) as [[]|err] eqn:E;
      simpl; [|by intros ?%not_elem_of_empty..].
    destruct body as [l|]; simpl; [|by intros ?%not_elem_of_empty].
    intros He%elem_of_list_to_set. eauto 6.
  - intros (cur & hrefs & l & -> & -> & He). simpl.
    by apply elem_of_list_to_set.
Qed.

(** The values a crawl collects are those of the pages it pulled, in
    order. *)
Lemma crawl_values web pick fuel uc vs uc' :
  crawl web pick fuel uc = Some (Ok vs, uc') ->
  exists urls, pulls web pick fuel uc = Some urls
               /\ vs = page_value web uc <$> urls.
Proof.
  revert uc vs uc'. induction fuel as [|fuel IH]; intros uc vs uc'; [done|].
  simpl. destruct (next_cases pick uc) as [[_ ->]|(url & _ & ->)].
  { intros [= <- <-]. by exists []. }
  set (uc1 := {| root := root uc |}).
  pose proof (load_and_parse_extends web url uc1) as (Hr & Hb & _).
  destruct (load_and_parse web url uc1) as [[v|e] uc2] eqn:El; [|done].
  apply load_and_parse_value in El. simpl in Hr, Hb.
  destruct (crawl web pick fuel uc2) as [[[vs'|e] uc3]|] eqn:Ec; [|done..].
  intros [= <- <-]. destruct (IH _ _ _ Ec) as (urls & -> & ->).
  exists (url :: urls). split; [done|]. simpl. f_equal.
  - rewrite El. by apply page_value_same.
  - apply list_fmap_ext. intros _ u _. by apply page_value_same.
Qed.

(** C1, amended: the driver does not call add_email.  For every crawl run
    the frontier's emails set is still empty when the run ends.  The
    email-like strings found in the body of a page are what load_and_parse
    returns for it, when the page loaded and landed inside the root domain;
    and the value of a run that ends without an exception is their union
    over the pages taken from the frontier: a string is in it exactly when
    it was found on such a page. *)
Theorem run_collects_page_emails (web : str -> page) (pick : gset str -> nat)
  (fuel : nat) (site : str) (r : res pyval) (uc : UrlCollection) :
  main (Ok web) pick fuel site = Some (r, Some uc) ->
  emails uc = ∅
  /\ (forall url uc1 uc2 v cur hrefs l,
        web url = Page cur hrefs (Some l) ->
        (do n <- normalize uc1 cur; should_parse uc1 n) = Ok true ->
        load_and_parse web url uc1 = (Ok v, uc2) ->
        v = PList l)
  /\ exists uc0, __init__ site = Ok uc0
     /\ forall v, r = Ok v ->
          exists urls, pulls web pick fuel uc0 = Some urls
            /\ forall e, e ∈ members v <->
                 exists url cur hrefs l,
                   url ∈ urls /\ web url = Page cur hrefs (Some l)
                   /\ (do n <- normalize uc0 cur; should_parse uc0 n)
                      = Ok true
                   /\ e ∈ l.
Proof.
  unfold main. destruct (__init__ site) as [uc0|e] eqn:Ei; [|done].
  assert (emails uc0 = ∅) as H0.
  { unfold __init__ in Ei. destruct (urlparse _); [|done]. by injection Ei as <-. }
  intros Hm.
  assert (emails uc = ∅) as He.
  { destruct (crawl web pick fuel uc0) as [[[vs|e] uc1]|] eqn:Ec; [| |done];
      injection Hm as <- <-; by rewrite (crawl_emails _ _ _ _ _ _ Ec). }
  split; [done|]. split.
  { intros url uc1 uc2 v cur hrefs l Hw Hin Hl.
    apply load_and_parse_value in Hl. subst v. unfold page_value.
    by rewrite Hw, Hin. }
  exists uc0. split; [done|]. intros v ->.
  destruct (crawl web pick fuel uc0) as [[[vs|e] uc1]|] eqn:Ec; [|done..].
  injection Hm as Hv <-. apply reduce_members in Hv.
  destruct (crawl_values _ _ _ _ _ _ Ec) as (urls & Hp & ->).
  exists urls. split; [done|]. intros e. rewrite Hv, elem_of_union_list.
  split.
  - intros (X & HX & HeX).
    apply list_elem_of_fmap in HX as (pv & -> & Hpv).
    apply list_elem_of_fmap in Hpv as (url & -> & Hurl).
    apply members_page_value in HeX as (cur & hrefs & l & ? & ? & ?).
    eauto 10.
  - intros (url & cur & hrefs & l & Hurl & Hw & Hin & Hel).
    exists (members (page_value web uc0 url)). split.
    + by apply list_elem_of_fmap_2, list_elem_of_fmap_2.
    + apply members_page_value. eauto 6.
Qed.

Lemma run_collects_page_emails_witness :
  main (Ok web_team) (fun _ => 0) 3 (py "example.com")
  = Some (Ok (PSet ({[ py "info@example.com" ]} ∪ {[ py "jobs@example.com" ]}
                    ∪ {[ py "ann@example.com" ]})),
          Some {| root := py "example.com"; base_url := py "http://example.com";
                  seen_urls := {[ py "http://example.com" ]}
                               ∪ {[ py "http://example.com/team" ]};
                  work_urls := ∅; emails := ∅ |})
  /\ emails {| root := py "example.com"; base_url := py "http://example.com";
               seen_urls := {[ py "http://example.com" ]}
                            ∪ {[ py "http://example.com/team" ]};
               work_urls := ∅; emails := ∅ |} = ∅.
Proof.
  split; [vm_compute; reflexivity|].
  apply (run_collects_page_emails web_team (fun _ => 0) 3 (py "example.com")
           (Ok (PSet ({[ py "info@example.com" ]} ∪ {[ py "jobs@example.com" ]}
                      ∪ {[ py "ann@example.com" ]})))).
  vm_compute. reflexivity.
Defined.

(** C2: the crawl does not always complete.  When the body of one page cannot
    be read, parse_emails swallows the WebDriverException and returns None
    instead of a list; with a second page in the run, reduce then calls
    set(None) and main ends with a TypeError. *)
Theorem crawl_fails_on_unreadable_body (pick : gset str -> nat) :
  main (Ok web_no_body) pick 3 (py "example.com")
  = Some (Raise TypeError,
          Some {| root := py "example.com"; base_url := py "http://example.com";
                  seen_urls := {[ py "http://example.com" ]}
                               ∪ {[ py "http://example.com/contact" ]};
                  work_urls := ∅; emails := ∅ |}).
Proof. vm_compute. reflexivity. Qed.

(** * Further properties *)

(** ** The frontier under all its operations *)


(** X1: every url waiting in work_urls is also in seen_urls, from
    construction on and after any sequence of add_url, add_email, next,
    load_and_parse and download_and_parse calls. *)
Theorem pending_within_seen
  (web : str -> page) (env : modules)
  (pick : gset str -> nat) (seed : str) (uc : UrlCollection)
  (steps : list step) :
  __init__ seed = Ok uc ->
  work_urls (run_steps web env pick steps uc)
  ⊆ seen_urls (run_steps web env pick steps uc).
Proof.
  intros Hinit.
  destruct (run_steps_extends web env pick steps uc) as (_ & _ & _ & _ & H).
  apply H. unfold __init__ in Hinit. destruct (urlparse _); [|done].
  by injection Hinit as <-.
Qed.

Lemma pending_within_seen_witness :
  __init__ (py "example.com") = Ok example_uc
  /\ work_urls (run_steps web_root offline (fun _ => 0)
                  [DoNext; DoLoad (py "http://example.com"); DoAddEmail (py "a@b.c")]
                  example_uc)
     ⊆ seen_urls (run_steps web_root offline (fun _ => 0)
                    [DoNext; DoLoad (py "http://example.com"); DoAddEmail (py "a@b.c")]
                    example_uc).
Proof.
  split; [vm_compute; reflexivity|].
  apply (pending_within_seen web_root offline (fun _ => 0)
           (py "example.com")).
  vm_compute. reflexivity.
Defined.

(** X2: no operation of the source shrinks seen_urls or emails, and none
    changes root or base_url: whatever was seen stays seen, and the domain
    boundary is fixed at construction. *)
Theorem frontier_only_grows
  (web : str -> page) (env : modules)
  (pick : gset str -> nat) (steps : list step) (self : UrlCollection) :
  let self' := run_steps web env pick steps self in
  root self' = root self /\ base_url self' = base_url self
  /\ seen_urls self ⊆ seen_urls self' /\ emails self ⊆ emails self'.
Proof.
  destruct (run_steps_extends web env pick steps self) as (? & ? & ? & ? & _).
  done.
Qed.

(** ** next and add_url *)


(** X3: [next] takes exactly one url out of work_urls when there is one: the
    url it returns was pending and is pending no longer, work_urls loses
    that url only (one element fewer), and seen_urls, emails, root and
    base_url are untouched.  On an empty work_urls it changes nothing and
    signals StopIteration. *)
Theorem next_takes_one (pick : gset str -> nat) (self : UrlCollection) :
  match next pick self with
  | (Ok (Some url), self') =>
      url ∈ work_urls self
      /\ work_urls self' = work_urls self ∖ {[ url ]}
      /\ S (size (work_urls self')) = size (work_urls self)
      /\ seen_urls self' = seen_urls self /\ emails self' = emails self
      /\ root self' = root self /\ base_url self' = base_url self
  | (Ok None, self') => work_urls self = ∅ /\ self' = self
  | (Raise _, _) => False
  end.
Proof.
  unfold next. destruct (elements (work_urls self)) as [|x l] eqn:E.
  - split; [|done]. by apply elements_empty_inv in E; apply leibniz_equiv.
  - set (url := nth _ _ _).
    assert (url ∈ work_urls self) as Hin.
    { apply elem_of_elements. rewrite E. apply nth_mod_elem. }
    split_and!; try done. simpl.
    rewrite size_difference by (by apply singleton_subseteq_l).
    rewrite size_singleton.
    assert (size (work_urls self) <> 0); [|lia].
    apply size_non_empty_iff. intros H. apply leibniz_equiv in H.
    rewrite H in Hin. by apply not_elem_of_empty in Hin.
Qed.


(** X4: calling [add_url] again with the same argument does nothing more:
    the second call returns the collection the first one left, whether the
    first admitted the url, dropped it or raised. *)
Theorem add_url_twice (url : option str) (self : UrlCollection) :
  (add_url url (add_url url self).2).2 = (add_url url self).2.
Proof.
  destruct (add_url_cases self url)
    as [[e H]|[(w & _ & _ & H)|(y & Hn & Hs & H)]]; rewrite H; simpl;
    [by rewrite H..|].
  set (self' := {| root := root self |}).
  unfold add_url.
  rewrite (normalize_base self' self url) by done. rewrite Hn.
  apply should_add_true in Hs as (? & [= <-] & _ & _).
  destruct y as [|c y]; [done|]. simpl.
  rewrite bool_decide_eq_false_2; [done|].
  intros Hnot. apply Hnot. apply elem_of_union_r. by apply elem_of_singleton.
Qed.

(** ** normalize and the host *)

Lemma urlparse_unparse_hosted s N P :
  wf_triple s N P -> N <> [] ->
  urlparse (unparse3 s N P) = Ok (mkParse s N P [] [] []).
Proof.
  intros (Hs & Hl & HN & Hb & HP & Hh & Hc & _ & Hf) HNe.
  assert (s <> []) as Hne by (intros E; by destruct (Hf E)).
  rewrite unparse3_hosted by auto. rewrite (rooted_id P) by auto.
  rewrite urlparse_hosted, Hb by auto. done.
Qed.

Lemma normalize_host (self : UrlCollection) (x w : str) (p : ParseResult) :
  urlparse (absolute self x) = Ok p -> netloc p <> [] ->
  normalize self (Some x) = Ok (Some w) ->
  urlparse w = Ok (mkParse (scheme p) (netloc p) (path p) [] [] []).
Proof.
  intros Hp HN (x' & p' & [= <-] & _ & Hp' & -> & Hwf & _)%normalize_Some.
  assert (p' = p) as -> by congruence.
  by apply urlparse_unparse_hosted.
Qed.

(** X5: when the url handed to [normalize] has a host, the result parses
    back to exactly the scheme, host and path of that (resolved,
    lower-cased) url, with no params, query or fragment: normalizing keeps
    the host and drops nothing else than those three parts. *)
Theorem normalize_keeps_host (self : UrlCollection) (x w : str)
  (p : ParseResult) :
  urlparse (absolute self x) = Ok p -> netloc p <> [] ->
  normalize self (Some x) = Ok (Some w) ->
  urlparse w = Ok (mkParse (scheme p) (netloc p) (path p) [] [] []).
Proof. apply normalize_host. Qed.

Lemma normalize_keeps_host_witness :
  urlparse (absolute example_uc (py "HTTP://Blog.Example.com/Post;v=1?id=7#top"))
  = Ok (mkParse (py "http") (py "blog.example.com") (py "/post") (py "v=1")
          (py "id=7") (py "top"))
  /\ urlparse (py "http://blog.example.com/post")
     = Ok (mkParse (py "http") (py "blog.example.com") (py "/post") [] [] []).
Proof.
  split; [vm_compute; reflexivity|].
  apply (normalize_keeps_host example_uc
           (py "HTTP://Blog.Example.com/Post;v=1?id=7#top")
           (py "http://blog.example.com/post")
           (mkParse (py "http") (py "blog.example.com") (py "/post") (py "v=1")
              (py "id=7") (py "top")));
    [vm_compute; reflexivity|done|vm_compute; reflexivity].
Defined.

Lemma lower_app a b : lower (a ++ b) = lower a ++ lower b.
Proof. unfold lower. apply map_app. Qed.

Lemma urlparse_host_of s N t :
  s <> [] -> is_scheme s = true -> lower s = s ->
  existsb is_delim3 N = false -> bad_brackets N = false ->
  exists p, urlparse (s ++ ":" :: "/" :: "/" :: N ++ "/" :: t) = Ok p
            /\ scheme p = s /\ netloc p = N.
Proof.
  intros Hne Hs Hl HN Hb.
  rewrite urlparse_eq, urlsplit_eq, scheme_end_slash by done.
  rewrite take_app_length.
  replace (drop (S (length s)) (s ++ ":" :: "/" :: "/" :: N ++ "/" :: t))
    with ("/" :: "/" :: N ++ "/" :: t).
  2:{ replace (S (length s)) with (length s + 1) by lia.
      by rewrite <- drop_drop, drop_app_length. }
  rewrite Hl, urlsplit_tail_eq. rewrite bool_decide_eq_true_2 by done.
  cbn zeta. change (drop 2 ("/" :: "/" :: N ++ "/" :: t)) with (N ++ "/" :: t).
  rewrite before_app by done. simpl. rewrite app_nil_r, Hb. simpl.
  eexists. done.
Qed.

(** The collection the constructor builds. *)
Lemma init_shape seed uc :
  __init__ seed = Ok uc ->
  exists p, urlparse (site_of seed) = Ok p
    /\ wf_triple (scheme p) (netloc p) (path p)
    /\ lowercase (netloc p)
    /\ root uc = netloc p
    /\ base_url uc = scheme p ++ py "://" ++ netloc p
    /\ seen_urls uc = {[ site_of seed ]} /\ work_urls uc = {[ site_of seed ]}
    /\ emails uc = ∅.
Proof.
  unfold __init__. destruct (urlparse (site_of seed)) as [p|] eqn:Ep; [|done].
  intros [= <-]. exists p. simpl.
  assert (lowercase (site_of seed) /\ startswith (py "http") (site_of seed) = true)
    as [Hl Hh].
  { unfold site_of. destruct (startswith _ _) eqn:E.
    - split; [apply lower_lowercase|done].
    - split; [|done]. apply Forall_app. split; [by repeat constructor|].
      apply Forall_app. split; [by repeat constructor|].
      apply lower_lowercase. }
  split_and!; try done.
  - apply (urlparse_wf (site_of seed)); [by apply lowercase_fix|done..].
  - by eapply urlparse_forall.
Qed.

Lemma should_add_in_domain (self : UrlCollection) (w : str) :
  in_root_domain self w = Ok true -> (exists z, w = py "http" ++ z) ->
  should_add self (Some w) = Ok (bool_decide (w ∉ seen_urls self)).
Proof.
  intros Hd [z ->]. cbn [py list_ascii_of_string app should_add] in *.
  destruct (bool_decide _); [exact Hd|done].
Qed.

(** X6: for a frontier built from a seed with a host, every link that begins
    with "/" stays in the root domain, at any later point of the crawl:
    [normalize] resolves it against base_url, the result passes
    [in_root_domain], and [add_url] returns without raising with the
    result in seen_urls. *)
Theorem relative_link_in_domain
  (web : str -> page) (env : modules)
  (pick : gset str -> nat) (seed : str) (uc0 : UrlCollection)
  (steps : list step) (t : str) :
  __init__ seed = Ok uc0 -> root uc0 <> [] ->
  let uc := run_steps web env pick steps uc0 in
  exists w, normalize uc (Some ("/" :: t)) = Ok (Some w)
    /\ in_root_domain uc w = Ok true
    /\ (add_url (Some ("/" :: t)) uc).1 = Ok tt
    /\ w ∈ seen_urls (add_url (Some ("/" :: t)) uc).2.
Proof.
  intros Hinit Hroot uc.
  destruct (run_steps_extends web env pick steps uc0) as (Hr & Hb & _).
  fold uc in Hr, Hb.
  destruct (init_shape _ _ Hinit) as (p0 & _ & Hwf & HlN & Hr0 & Hb0 & _).
  pose proof Hwf as (Hs & Hl & HN & Hbad & _ & _ & _ & Hpre & Hf).
  rewrite Hr0 in Hroot.
  assert (scheme p0 <> []) as Hne by (intros E; by destruct (Hf E)).
  destruct (Hpre Hne) as [y Hy].
  assert (absolute uc ("/" :: t)
          = scheme p0 ++ ":" :: "/" :: "/" :: netloc p0 ++ "/" :: lower t) as Ha.
  { unfold absolute. simpl negb. cbv iota. rewrite Hb, Hb0.
    rewrite !lower_app, Hl. apply lowercase_fix in HlN. rewrite HlN.
    rewrite <- !app_assoc. done. }
  destruct (urlparse_host_of (scheme p0) (netloc p0) (lower t))
    as (p & Hp & Hsp & HNp); try done.
  rewrite <- Ha in Hp.
  assert (normalize uc (Some ("/" :: t))
          = Ok (Some (unparse3 (scheme p) (netloc p) (path p)))) as Hn.
  { assert (startswith (py "http") (absolute uc ("/" :: t)) = true) as Hh
      by (by rewrite Ha, Hy).
    rewrite normalize_eq, Hh, Hp. done. }
  set (w := unparse3 _ _ _) in *. exists w.
  assert (urlparse w = Ok (mkParse (scheme p) (netloc p) (path p) [] [] []))
    as Hw.
  { apply (normalize_host uc ("/" :: t)); [done| |done]. congruence. }
  assert (in_root_domain uc w = Ok true) as Hd.
  { unfold in_root_domain. rewrite Hw. simpl. f_equal.
    apply endswith_spec. exists []. rewrite Hr, Hr0. simpl. congruence. }
  destruct (normalize_shape _ _ _ Hn) as (_ & Hz & _).
  pose proof (should_add_in_domain uc w Hd Hz) as Hadd.
  unfold add_url. rewrite Hn, Hadd.
  split_and!; try done; case_bool_decide as Hin; simpl; try done.
  apply elem_of_union_r. by apply elem_of_singleton.
Qed.

Lemma relative_link_in_domain_witness :
  __init__ (py "example.com") = Ok example_uc /\ root example_uc <> []
  /\ exists w, normalize example_uc (Some (py "/About?x=1")) = Ok (Some w)
       /\ in_root_domain example_uc w = Ok true
       /\ (add_url (Some (py "/About?x=1")) example_uc).1 = Ok tt
       /\ w ∈ seen_urls (add_url (Some (py "/About?x=1")) example_uc).2.
Proof.
  split; [vm_compute; reflexivity|]. split; [done|].
  apply (relative_link_in_domain web_root offline (fun _ => 0)
           (py "example.com") example_uc [] (py "About?x=1")
           init_example ltac:(done)).
Defined.

Lemma should_parse_normal (self : UrlCollection) (w : str) :
  (exists z, w = py "http" ++ z) ->
  should_parse self (Some w) = in_root_domain self w.
Proof. by intros [z ->]. Qed.

(** X7: a page that lands outside the root domain contributes nothing: when
    the landing url has a host that does not end with root,
    [load_and_parse] returns the empty list and leaves the frontier exactly
    as it was, whatever links and addresses the page carries. *)
Theorem outside_landing_adds_nothing (web : str -> page) (url cur : str)
  (hrefs : list (option str)) (body : option (list str))
  (uc : UrlCollection) (p : ParseResult) :
  web url = Page (Some cur) hrefs body ->
  urlparse (absolute uc cur) = Ok p -> netloc p <> [] ->
  endswith (root uc) (netloc p) = false ->
  load_and_parse web url uc = (Ok (PList []), uc).
Proof.
  intros Hweb Hp HN Hend.
  assert ((do n <- normalize uc (Some cur); should_parse uc n) = Ok false)
    as Hout.
  { destruct (normalize uc (Some cur)) as [[w|]|e] eqn:En.
    - pose proof (normalize_host _ _ _ _ Hp HN En) as Hw.
      destruct (normalize_shape _ _ _ En) as (_ & Hz & _).
      unfold res_bind. rewrite (should_parse_normal uc w Hz).
      unfold in_root_domain. rewrite Hw. simpl. by rewrite Hend.
    - done.
    - destruct cur as [|c cur]; [done|]. rewrite normalize_eq in En.
      destruct (startswith _ _); [|done]. by rewrite Hp in En. }
  unfold load_and_parse. rewrite Hweb, Hout. done.
Qed.

Lemma outside_landing_adds_nothing_witness :
  load_and_parse
    (fun _ => Page (Some (py "https://Other.com/")) [Some (py "/a")]
                (Some [py "x@other.com"]))
    (py "http://example.com/away") example_uc
  = (Ok (PList []), example_uc).
Proof.
  apply (outside_landing_adds_nothing _ _ (py "https://Other.com/")
           [Some (py "/a")] (Some [py "x@other.com"]) example_uc
           (mkParse (py "https") (py "other.com") (py "/") [] [] []));
    [reflexivity|vm_compute; reflexivity|done|vm_compute; reflexivity].
Defined.

(** ** The crawl loop *)


(** X8: a crawl never fetches a url twice.  Whenever the crawl of a frontier
    whose pending urls are all seen comes to an end, the urls it took from
    the frontier are pairwise distinct. *)
Theorem crawl_fetches_once (web : str -> page) (pick : gset str -> nat)
  (fuel : nat) (uc uc' : UrlCollection) (r : res (list pyval)) :
  work_urls uc ⊆ seen_urls uc ->
  crawl web pick fuel uc = Some (r, uc') ->
  exists l, pulls web pick fuel uc = Some l /\ NoDup l.
Proof.
  intros Hsub Hc.
  destruct (pulls web pick fuel uc) as [l|] eqn:Hl.
  - exists l. split; [done|]. by eapply pulls_inv.
  - apply crawl_pulls in Hl. congruence.
Qed.

Lemma crawl_fetches_once_witness :
  work_urls example_uc ⊆ seen_urls example_uc
  /\ exists l, pulls web_root (fun _ => 0) 3 example_uc = Some l /\ NoDup l.
Proof.
  split; [done|].
  eapply (crawl_fetches_once web_root (fun _ => 0) 3 example_uc); [done|].
  vm_compute. reflexivity.
Defined.

Lemma fetched_inv web pick n uc :
  work_urls uc ⊆ seen_urls uc ->
  forall u, u ∈ fetched web pick n uc ->
    u ∈ work_urls uc
    \/ ((u ∉ seen_urls uc) /\ in_root_domain uc u = Ok true).
Proof.
  revert uc. induction n as [|n IH]; intros uc Hsub u;
    [by intros ?%elem_of_nil|]. simpl.
  destruct (next_cases pick uc) as [[_ ->]|(url & Hin & ->)];
    [by intros ?%elem_of_nil|].
  set (uc1 := {| root := root uc |}).
  pose proof (load_and_parse_grows web url uc1) as (Hr & _ & Hs & Hw & Hn).
  intros [->|Hu]%elem_of_cons; [by left|].
  destruct (load_and_parse web url uc1) as [[v|e] uc2]; simpl in *;
    [|by apply elem_of_nil in Hu].
  assert (work_urls uc2 ⊆ seen_urls uc2) as Hsub2.
  { apply Hw. etrans; [apply subseteq_difference_l; reflexivity|done]. }
  destruct (IH _ Hsub2 u Hu) as [Hu2|[Hu2 Hd]].
  - destruct (Hn u Hu2) as [Hu1|[Hu1 Hd]]; [|by right].
    left. by apply elem_of_difference in Hu1 as [? _].
  - right. split; [intros ?; apply Hu2; by apply Hs|].
    by rewrite <- (in_root_domain_root uc2 uc) by done.
Qed.

Lemma pulls_fetched web pick fuel uc l :
  pulls web pick fuel uc = Some l -> fetched web pick fuel uc = l.
Proof.
  revert uc l. induction fuel as [|fuel IH]; intros uc l; [done|]. simpl.
  destruct (next pick uc) as [[[url|]|e] uc1]; [|by intros [= <-]..].
  destruct (load_and_parse web url uc1) as [[v|e] uc2]; [|by intros [= <-]].
  destruct (pulls web pick fuel uc2) as [l'|] eqn:E; [|done].
  intros [= <-]. by rewrite (IH _ _ E).
Qed.

(** X9: a crawl started from the constructor stays in the root domain, at
    every point of the run and whether or not the run ever ends: the first
    url it fetches is the seed entry, and every other url among its first
    n fetches, for any n, has passed [in_root_domain].  When the crawl
    ends within n pulls these are all the urls it fetched. *)
Theorem crawl_stays_in_domain (web : str -> page) (pick : gset str -> nat)
  (n : nat) (seed : str) (uc : UrlCollection) :
  __init__ seed = Ok uc ->
  (0 < n -> head (fetched web pick n uc) = Some (site_of seed))
  /\ (forall u, u ∈ fetched web pick n uc ->
        u = site_of seed \/ in_root_domain uc u = Ok true)
  /\ (forall l, pulls web pick n uc = Some l -> fetched web pick n uc = l).
Proof.
  intros Hinit.
  destruct (init_shape _ _ Hinit) as (_ & _ & _ & _ & _ & _ & Hseen & Hwork & _).
  split_and!.
  - destruct n as [|n]; [lia|]. intros _. simpl.
    destruct (next_cases pick uc) as [[Hw _]|(url & Hin & ->)].
    { rewrite Hwork in Hw. by apply non_empty_singleton_L in Hw. }
    rewrite Hwork in Hin. apply elem_of_singleton in Hin. by subst url.
  - intros u Hu.
    destruct (fetched_inv web pick n uc) with (u := u) as [Hw|[_ ?]];
      [by rewrite Hseen, Hwork|done| |by right].
    left. rewrite Hwork in Hw. by apply elem_of_singleton in Hw.
  - apply pulls_fetched.
Qed.

Lemma crawl_stays_in_domain_witness :
  __init__ (py "example.com") = Ok example_uc
  /\ fetched web_root (fun _ => 0) 2 example_uc
     = [py "http://example.com"; py "http://example.com/"]
  /\ forall u, u ∈ fetched web_root (fun _ => 0) 2 example_uc ->
        u = site_of (py "example.com") \/ in_root_domain example_uc u = Ok true.
Proof.
  split; [vm_compute; reflexivity|]. split; [vm_compute; reflexivity|].
  apply (crawl_stays_in_domain web_root (fun _ => 0) 2 (py "example.com")
           example_uc).
  vm_compute. reflexivity.
Defined.

(** ** Termination on a finite web *)

Lemma size_add_le (X : gset str) (x : str) : size (X ∪ {[ x ]}) <= S (size X).
Proof.
  rewrite size_union_alt.
  assert (size (({[ x ]} : gset str) ∖ X) <= 1); [|lia].
  rewrite <- (size_singleton (C:=gset str) x).
  apply subseteq_size, subseteq_difference_l. reflexivity.
Qed.

Lemma size_unseen (U X : gset str) (x : str) :
  x ∈ U -> x ∉ X -> size (U ∖ X) = S (size (U ∖ (X ∪ {[ x ]}))).
Proof.
  intros HU HX.
  assert (U ∖ X = {[ x ]} ∪ U ∖ (X ∪ {[ x ]})) as ->.
  { apply set_eq. intros y. rewrite elem_of_union, !elem_of_difference,
      elem_of_union, !elem_of_singleton. split.
    - intros [HyU HyX]. destruct (decide (y = x)) as [->|Hne]; [by left|].
      right. split; [done|]. by intros [?|?].
    - intros [->|[HyU Hn]]; [done|]. split; [done|].
      intros ?. apply Hn. by left. }
  rewrite size_union, size_singleton; [done|].
  intros y Hy%elem_of_singleton [_ Hn]%elem_of_difference. subst y.
  apply Hn, elem_of_union_r. by apply elem_of_singleton.
Qed.

Lemma add_url_budget (U : gset str) (uc0 self : UrlCollection)
  (url : option str) :
  base_url self = base_url uc0 -> seen_urls self ⊆ U ->
  (forall w, normalize uc0 url = Ok (Some w) -> w ∈ U) ->
  budget U (add_url url self).2 <= budget U self
  /\ seen_urls (add_url url self).2 ⊆ U.
Proof.
  intros Hb Hs HU.
  destruct (add_url_cases self url)
    as [[e H]|[(w & _ & _ & H)|(y & Hn & Hadd & H)]]; rewrite H; simpl;
    [done..|].
  rewrite (normalize_base self uc0) in Hn by done.
  apply should_add_true in Hadd as (? & [= <-] & Hnot & _).
  pose proof (HU y Hn) as Hy. unfold budget. simpl. split.
  - rewrite (size_unseen U (seen_urls self) y) by done.
    pose proof (size_add_le (work_urls self) y). lia.
  - apply union_least; [done|]. by apply singleton_subseteq_l.
Qed.

Lemma add_urls_budget (U : gset str) (uc0 self : UrlCollection)
  (urls : list (option str)) :
  base_url self = base_url uc0 -> seen_urls self ⊆ U ->
  (forall u w, u ∈ urls -> normalize uc0 u = Ok (Some w) -> w ∈ U) ->
  budget U (add_urls urls self).2 <= budget U self
  /\ seen_urls (add_urls urls self).2 ⊆ U.
Proof.
  revert self. induction urls as [|u urls IH]; intros self Hb Hs HU; [done|].
  simpl.
  destruct (add_url_budget U uc0 self u Hb Hs) as [Hle Hs'].
  { intros w. apply HU. by left. }
  pose proof (add_url_extends u self) as (_ & Hb' & _).
  destruct (add_url u self) as [[[]|e] self']; simpl in *; [|done].
  destruct (IH self') as [Hle' Hs'']; [congruence|done| |].
  { intros u' w Hu'. apply HU. by right. }
  split; [lia|done].
Qed.

Lemma load_and_parse_budget (web : str -> page) (U : gset str)
  (uc0 self : UrlCollection) (url : str) :
  base_url self = base_url uc0 -> seen_urls self ⊆ U ->
  (forall url cur hrefs body u w,
     web url = Page cur hrefs body -> u ∈ hrefs ->
     normalize uc0 u = Ok (Some w) -> w ∈ U) ->
  budget U (load_and_parse web url self).2 <= budget U self
  /\ seen_urls (load_and_parse web url self).2 ⊆ U.
Proof.
  intros Hb Hs HU. unfold load_and_parse.
  destruct (web url) as [| |cur hrefs body] eqn:Hweb; [done..|].
  destruct (do n <- normalize self cur; should_parse self n) as [[]|e];
    [|done..].
  destruct (add_urls_budget U uc0 self hrefs Hb Hs) as [Hle Hs'].
  { intros u w. by apply (HU url cur hrefs body). }
  by destruct (add_urls hrefs self) as [[[]|e] self'].
Qed.

Lemma crawl_exhausts web pick fuel uc vs uc' :
  crawl web pick fuel uc = Some (Ok vs, uc') -> work_urls uc' = ∅.
Proof.
  revert uc vs. induction fuel as [|fuel IH]; intros uc vs; [done|]. simpl.
  destruct (next_cases pick uc) as [[Hw ->]|(url & _ & ->)].
  { by intros [= _ <-]. }
  destruct (load_and_parse _ _ _) as [[v|e] uc2]; [|done].
  destruct (crawl web pick fuel uc2) as [[[vs'|e] uc3]|] eqn:E; [|done..].
  intros [= _ <-]. by eapply IH.
Qed.

(** X10: on a finite web the crawl ends.  When every link of every page
    normalizes into a finite set [U] of urls that also holds what is seen
    already, a run with more pulls than twice the urls of [U] not seen yet
    plus the pending ones comes to an end, and if no exception stopped it
    no url is left pending. *)
Theorem crawl_terminates (web : str -> page) (pick : gset str -> nat)
  (U : gset str) (uc : UrlCollection) (fuel : nat) :
  seen_urls uc ⊆ U ->
  (forall url cur hrefs body u w,
     web url = Page cur hrefs body -> u ∈ hrefs ->
     normalize uc u = Ok (Some w) -> w ∈ U) ->
  budget U uc < fuel ->
  exists r uc', crawl web pick fuel uc = Some (r, uc')
    /\ forall vs, r = Ok vs -> work_urls uc' = ∅.
Proof.
  intros Hs HU Hfuel.
  assert (exists x, crawl web pick fuel uc = Some x) as [[r uc'] Hc].
  { assert (base_url uc = base_url uc) as Hb by done.
    revert Hb Hs Hfuel. generalize uc at 1 3 4 5 as self.
    induction fuel as [|fuel IH]; intros self Hb Hs Hfuel; [lia|]. simpl.
    destruct (next_cases pick self) as [[Hw ->]|(url & Hin & ->)]; [eauto|].
    set (self1 := {| root := root self |}).
    assert (S (budget U self1) = budget U self) as Hb1.
    { unfold budget, self1. simpl.
      rewrite (size_difference (work_urls self) {[ url ]})
        by (by apply singleton_subseteq_l).
      rewrite size_singleton.
      assert (size (work_urls self) <> 0); [|lia].
      apply size_non_empty_iff. intros H. apply leibniz_equiv in H.
      rewrite H in Hin. by apply not_elem_of_empty in Hin. }
    destruct (load_and_parse_budget web U uc self1 url Hb Hs HU) as [Hle Hs2].
    pose proof (load_and_parse_extends web url self1) as (_ & Hb2 & _).
    destruct (load_and_parse web url self1) as [[v|e] self2]; [|eauto].
    simpl in *. destruct (IH self2) as [x ->]; [congruence|done|lia|].
    destruct x as [[vs|e] self3]; eauto. }
  exists r, uc'. split; [done|]. intros vs ->. by eapply crawl_exhausts.
Qed.

Lemma crawl_terminates_witness :
  budget ({[ py "http://example.com" ]} ∪ {[ py "http://example.com/" ]})
    example_uc < 4
  /\ exists r uc', crawl web_root (fun _ => 0) 4 example_uc = Some (r, uc')
       /\ forall vs, r = Ok vs -> work_urls uc' = ∅.
Proof.
  split; [vm_compute; lia|].
  apply (crawl_terminates web_root (fun _ => 0)
           ({[ py "http://example.com" ]} ∪ {[ py "http://example.com/" ]})).
  - apply union_subseteq_l.
  - intros url cur hrefs body u w Hweb Hu Hn. unfold web_root in Hweb.
    repeat case_bool_decide; try done; injection Hweb as <- <- <-.
    + apply list_elem_of_singleton in Hu as ->. vm_compute in Hn.
      injection Hn as <-. apply elem_of_union_r. by apply elem_of_singleton.
    + by apply elem_of_nil in Hu.
  - vm_compute. lia.
Defined.

(** ** How main ends *)

Lemma add_url_raise url self e self' :
  add_url url self = (Raise e, self') -> e = ValueError.
Proof.
  unfold add_url. destruct (normalize self url) as [w|e'] eqn:En.
  - destruct (should_add self w) as [[]|e'] eqn:Es; [done..|].
    intros [= <- _]. destruct w as [[|c u]|]; try done. simpl in Es.
    case_bool_decide; [|done]. unfold in_root_domain in Es.
    destruct (urlparse (c :: u)) eqn:Ep; [done|]. injection Es as <-.
    by apply urlparse_raise in Ep as [-> _].
  - intros [= <- _]. destruct url as [[|c u]|]; try done.
    rewrite normalize_eq in En. destruct (startswith _ _); [|done].
    simpl in En. destruct (urlparse _) eqn:Ep; [done|]. injection En as <-.
    by apply urlparse_raise in Ep as [-> _].
Qed.

Lemma add_urls_raise urls self e self' :
  add_urls urls self = (Raise e, self') -> e = ValueError.
Proof.
  revert self. induction urls as [|u urls IH]; intros self; [done|]. simpl.
  destruct (add_url u self) as [[[]|e'] self1] eqn:E; [apply IH|].
  intros [= <- _]. by eapply add_url_raise.
Qed.

Lemma normalize_raise self url e :
  normalize self url = Raise e -> e = ValueError.
Proof.
  destruct url as [[|c u]|]; try done. rewrite normalize_eq.
  destruct (startswith _ _); [|done]. simpl.
  destruct (urlparse _) eqn:Ep; [done|]. intros [= <-].
  by apply urlparse_raise in Ep as [-> _].
Qed.

Lemma load_and_parse_raise web url self e self' :
  load_and_parse web url self = (Raise e, self') ->
  (e = ValueError /\ exists cur hrefs body, web url = Page cur hrefs body)
  \/ (e = WebDriverException /\ web url = NoCurrentUrl).
Proof.
  unfold load_and_parse.
  destruct (web url) as [| |cur hrefs body]; [done|intros [= <- _]; by right|].
  intros H. left. split; [|eauto]. revert H.
  destruct (normalize self cur) as [n|e'] eqn:En; simpl.
  - destruct (should_parse self n) as [[]|e'] eqn:Es; [|done|].
    + destruct (add_urls hrefs self) as [[[]|e'] self1] eqn:Ea; [done|].
      intros [= <- _]. by eapply add_urls_raise.
    + intros [= <- _]. destruct n as [[|c u]|]; try done.
      unfold should_parse, in_root_domain in Es.
      destruct (urlparse (c :: u)) eqn:Ep; [done|]. injection Es as <-.
      by apply urlparse_raise in Ep as [-> _].
  - intros [= <- _]. by eapply normalize_raise.
Qed.

(** An exception ends the crawl at the page that raised it: the last url
    fetched. *)
Lemma crawl_raise web pick fuel uc e uc' :
  crawl web pick fuel uc = Some (Raise e, uc') ->
  exists url, last (fetched web pick fuel uc) = Some url
    /\ ((e = ValueError /\ exists cur hrefs body, web url = Page cur hrefs body)
        \/ (e = WebDriverException /\ web url = NoCurrentUrl)).
Proof.
  revert uc. induction fuel as [|fuel IH]; intros uc; [done|]. simpl.
  destruct (next_cases pick uc) as [[_ ->]|(url & _ & ->)]; [done|].
  destruct (load_and_parse _ _ _) as [[v|e'] uc2] eqn:El.
  - destruct (crawl web pick fuel uc2) as [[[vs|e'] uc3]|] eqn:E; [done| |done].
    intros [= <- <-]. destruct (IH _ E) as (u & Hl & Hu). exists u.
    split; [|done]. rewrite last_cons, Hl. done.
  - intros [= <- _]. exists url. split; [done|].
    by eapply load_and_parse_raise.
Qed.

Lemma crawl_nonempty web pick fuel uc vs uc' :
  crawl web pick fuel uc = Some (Ok vs, uc') -> work_urls uc <> ∅ -> vs <> [].
Proof.
  destruct fuel as [|fuel]; [done|]. simpl.
  destruct (next_cases pick uc) as [[Hw ->]|(url & _ & ->)]; [done|].
  destruct (load_and_parse _ _ _) as [[v|e'] uc2]; [|done].
  destruct (crawl web pick fuel uc2) as [[[vs'|e'] uc3]|]; [|done..].
  by intros [= <- _].
Qed.

Lemma fold_union_set (s : gset str) (l : list pyval) :
  (PNone ∈ l ->
   foldl (fun acc y => do a <- acc; union_emails a y) (Ok (PSet s)) l
   = Raise TypeError)
  /\ (PNone ∉ l ->
      exists s', foldl (fun acc y => do a <- acc; union_emails a y)
                   (Ok (PSet s)) l = Ok (PSet s')).
Proof.
  revert s. induction l as [|y l IH]; intros s.
  - split; [by intros ?%elem_of_nil|eauto].
  - simpl. destruct y as [|ly|sy]; simpl.
    + split; [intros _; apply fold_union_raise|].
      intros H. destruct H. by left.
    + destruct (IH (s ∪ list_to_set ly)) as [IH1 IH2]. split.
      * intros [?|?]%elem_of_cons; [done|auto].
      * intros H. apply IH2. intros ?. apply H. by right.
    + destruct (IH (s ∪ sy)) as [IH1 IH2]. split.
      * intros [?|?]%elem_of_cons; [done|auto].
      * intros H. apply IH2. intros ?. apply H. by right.
Qed.

Lemma reduce_outcome (vs : list pyval) :
  vs <> [] ->
  (2 <= length vs /\ PNone ∈ vs -> reduce union_emails vs = Raise TypeError)
  /\ (~ (2 <= length vs /\ PNone ∈ vs) ->
      exists v, reduce union_emails vs = Ok v).
Proof.
  destruct vs as [|x [|y l]]; [done| |]; intros _.
  - split; [simpl; lia|eauto].
  - assert (2 <= length (x :: y :: l)) as Hlen by (simpl; lia).
    cbn [reduce foldl res_bind].
    destruct (union_emails x y) as [v|e] eqn:E.
    + assert (exists s, v = PSet s /\ x <> PNone /\ y <> PNone)
        as (s & -> & Hx & Hy).
      { unfold union_emails in E. destruct x, y; simpl in E; try done;
          injection E as <-; eauto. }
      destruct (fold_union_set s l) as [H1 H2]. split.
      * intros [_ [?|[?|?]%elem_of_cons]%elem_of_cons]; [done|done|auto].
      * intros H. destruct (H2) as [s' ->]; [|eauto].
        intros ?. apply H. split; [done|]. by do 2 right.
    + assert (e = TypeError /\ (x = PNone \/ y = PNone)) as [-> Hxy].
      { unfold union_emails in E. destruct x, y; simpl in E; try done;
          injection E as <-; auto. }
      rewrite fold_union_raise. split; [done|].
      intros H. destruct H. split; [done|].
      destruct Hxy as [->| ->]; [by left|by right; left].
Qed.

(** X11: how a run can end, once the collection is built and with
    WebDriverException as the way a driver call fails.  Either DriverParser()
    raises before any page is fetched; or the crawl stops at a page, with
    the WebDriverException of reading current_url (the one driver call
    without a handler) or with the ValueError of urlparse; or the crawl loop
    comes through, and then [reduce] raises the TypeError exactly when at
    least two pages were taken and the result of one of them is None, and
    gives the emails value otherwise. *)
Theorem main_outcome (DriverParser : res (str -> page))
  (pick : gset str -> nat) (fuel : nat) (site : str) (r : res pyval)
  (uc : UrlCollection) :
  main DriverParser pick fuel site = Some (r, Some uc) ->
  exists uc0, __init__ site = Ok uc0
    /\ ((exists e, DriverParser = Raise e /\ r = Raise e /\ uc = uc0)
        \/ exists web, DriverParser = Ok web
           /\ ((exists e url,
                  r = Raise e
                  /\ crawl web pick fuel uc0 = Some (Raise e, uc)
                  /\ last (fetched web pick fuel uc0) = Some url
                  /\ ((e = WebDriverException /\ web url = NoCurrentUrl)
                      \/ (e = ValueError
                          /\ exists cur hrefs body,
                               web url = Page cur hrefs body)))
               \/ exists vs, crawl web pick fuel uc0 = Some (Ok vs, uc)
                    /\ vs <> []
                    /\ (2 <= length vs /\ PNone ∈ vs -> r = Raise TypeError)
                    /\ (~ (2 <= length vs /\ PNone ∈ vs) ->
                        exists v, r = Ok v))).
Proof.
  unfold main. destruct (__init__ site) as [uc0|e] eqn:Ei; [|done].
  destruct DriverParser as [web|e].
  2:{ intros [= <- <-]. exists uc0. split; [done|]. left. eauto. }
  destruct (crawl web pick fuel uc0) as [[[vs|e] uc1]|] eqn:Ec; [| |done];
    intros [= <- <-]; exists uc0; (split; [done|]); right; exists web;
    (split; [done|]).
  - right. exists vs. split; [done|].
    assert (vs <> []) as Hne.
    { eapply crawl_nonempty; [done|].
      destruct (init_shape _ _ Ei) as (_ & _ & _ & _ & _ & _ & _ & -> & _).
      apply non_empty_singleton_L. }
    split; [done|]. by apply reduce_outcome.
  - left. destruct (crawl_raise _ _ _ _ _ _ Ec) as (url & Hl & H).
    exists e, url. split_and!; [done..|]. destruct H; auto.
Qed.

Lemma main_outcome_witness :
  main (Ok web_lost) (fun _ => 0) 3 (py "example.com")
  = Some (Raise WebDriverException,
          Some {| root := py "example.com"; base_url := py "http://example.com";
                  seen_urls := {[ py "http://example.com" ]}
                               ∪ {[ py "http://example.com/contact" ]};
                  work_urls := ∅; emails := ∅ |})
  /\ exists uc0, __init__ (py "example.com") = Ok uc0.
Proof.
  split; [vm_compute; reflexivity|].
  destruct (main_outcome (Ok web_lost) (fun _ => 0) 3 (py "example.com")
              (Raise WebDriverException)
              {| root := py "example.com"; base_url := py "http://example.com";
                 seen_urls := {[ py "http://example.com" ]}
                              ∪ {[ py "http://example.com/contact" ]};
                 work_urls := ∅; emails := ∅ |}) as (uc0 & H & _);
    [vm_compute; reflexivity|eauto].
Defined.

(** The same site with a readable second page whose body cannot be read
    ends in the TypeError, and a driver that does not start ends the run
    before the first page. *)
Example main_ends :
  main (Ok web_no_body) (fun _ => 0) 3 (py "example.com")
  = Some (Raise TypeError,
          Some {| root := py "example.com"; base_url := py "http://example.com";
                  seen_urls := {[ py "http://example.com" ]}
                               ∪ {[ py "http://example.com/contact" ]};
                  work_urls := ∅; emails := ∅ |})
  /\ main (Raise WebDriverException) (fun _ => 0) 3 (py "example.com")
     = Some (Raise WebDriverException, Some example_uc).
Proof. split; vm_compute; reflexivity. Qed.

(** ** The constructor *)

Lemma is_space_lower c : is_space (lower_char c) = is_space c.
Proof. destruct c as [[] [] [] [] [] [] [] []]; reflexivity. Qed.

Lemma lstrip_lower s : lstrip (lower s) = lower (lstrip s).
Proof.
  induction s as [|c s IH]; simpl; [done|].
  rewrite is_space_lower. by destruct (is_space c).
Qed.

Lemma rev_lower s : rev (lower s) = lower (rev s).
Proof. unfold lower. by rewrite map_rev. Qed.

Lemma strip_lower s : strip (lower s) = lower (strip s).
Proof.
  unfold strip. by rewrite lstrip_lower, rev_lower, lstrip_lower, rev_lower.
Qed.

Lemma lstrip_no_lead s : no_lead (lstrip s).
Proof.
  induction s as [|c s IH]; simpl; [done|].
  destruct (is_space c) eqn:E; [done|]. simpl. done.
Qed.

Lemma lstrip_fix s : no_lead s -> lstrip s = s.
Proof. destruct s as [|c s]; simpl; [done|]. by intros ->. Qed.

Lemma lstrip_suffix s : exists pre, s = pre ++ lstrip s.
Proof.
  induction s as [|c s [pre IH]]; simpl; [by exists []|].
  destruct (is_space c); [|by exists []].
  exists (c :: pre). simpl. by rewrite <- IH.
Qed.

Lemma no_lead_app a b : a <> [] -> no_lead (a ++ b) -> no_lead a.
Proof. by destruct a. Qed.

Lemma strip_trimmed s : no_lead (strip s) /\ no_lead (rev (strip s)).
Proof.
  unfold strip. rewrite rev_involutive. split; [|apply lstrip_no_lead].
  destruct (lstrip_suffix (rev (lstrip s))) as [pre Hpre].
  set (b := lstrip (rev (lstrip s))) in *.
  destruct (decide (rev b = [])) as [->|Hne]; [done|].
  apply (no_lead_app _ (rev pre)); [done|].
  rewrite <- rev_app_distr, <- Hpre, rev_involutive. apply lstrip_no_lead.
Qed.

Lemma strip_fix s : no_lead s -> no_lead (rev s) -> strip s = s.
Proof.
  intros H1 H2. unfold strip.
  by rewrite (lstrip_fix s), (lstrip_fix (rev s)), rev_involutive.
Qed.

Lemma strip_idem s : strip (strip s) = strip s.
Proof. destruct (strip_trimmed s). by apply strip_fix. Qed.

Lemma no_lead_lower s : no_lead s -> no_lead (lower s).
Proof. destruct s as [|c s]; simpl; [done|]. by rewrite is_space_lower. Qed.

Lemma site_of_fix r :
  lower r = r -> strip r = r -> startswith (py "http") r = true ->
  site_of r = r.
Proof. intros Hl Hs Hh. unfold site_of. by rewrite Hs, Hl, Hh. Qed.

(** X12: the constructor's rewriting of the seed is idempotent: rewriting
    its own result changes nothing, so constructing a frontier from the
    rewritten seed gives the same frontier (or the same error) as
    constructing it from the seed.  Seeds that differ only in case, in
    surrounding white space or in a missing "http://" are the same seed. *)
Theorem site_of_idempotent (seed : str) :
  site_of (site_of seed) = site_of seed
  /\ __init__ (site_of seed) = __init__ seed.
Proof.
  assert (site_of (site_of seed) = site_of seed) as H;
    [|split; [done|]; unfold __init__; by rewrite H].
  set (t := lower (strip seed)).
  assert (lower t = t) as Hlt by apply lowercase_fix, lower_lowercase.
  assert (strip t = t) as Hst.
  { unfold t. by rewrite strip_lower, strip_idem. }
  unfold site_of. fold t. destruct (startswith (py "http") t) eqn:E.
  - by apply site_of_fix.
  - apply site_of_fix; [| |done].
    + rewrite !lower_app, Hlt. done.
    + apply strip_fix; [done|]. rewrite !rev_app_distr.
      destruct (decide (rev t = [])) as [->|Hne]; [done|].
      destruct (rev t) as [|c rt] eqn:Ert; [done|].
      destruct (strip_trimmed seed) as [_ Hr].
      apply no_lead_lower in Hr. rewrite <- rev_lower in Hr.
      fold t in Hr. rewrite Ert in Hr. exact Hr.
Qed.

(** ** EMAIL_RE *)

Lemma greedy_spec cls k s n :
  greedy cls k s = Some n ->
  exists m j, n = m + j /\ 0 < m /\ m <= length s
              /\ forallb cls (take m s) = true /\ k (drop m s) = Some j.
Proof.
  revert n. induction s as [|x s IH]; intros n; simpl; [done|].
  destruct (cls x) eqn:Ex; [|done].
  destruct (greedy cls k s) as [n'|] eqn:Eg.
  - intros [= <-]. destruct (IH n' eq_refl) as (m & j & -> & Hm & Hlen & Hall & Hk).
    exists (S m), j. simpl. rewrite Ex, Hall. split_and!; try done; lia.
  - destruct (k s) as [j|] eqn:Ek; [|done]. intros [= <-].
    exists 1, j. simpl. rewrite ?take_0, ?drop_0, Ex. split_and!; try done; lia.
Qed.

Lemma take_nonempty (s : str) m : 0 < m -> m <= length s -> take m s <> [].
Proof. destruct s, m; simpl; try done; lia. Qed.

Lemma re_match_email s n :
  re_match EMAIL_RE s = Some n ->
  email_shaped (take n s) /\ n <= length s.
Proof.
  unfold EMAIL_RE. cbn [re_match].
  intros (m1 & j1 & -> & Hm1 & Hl1 & HL & Hk1)%greedy_spec.
  rewrite <- (take_drop m1 s) at 1 2.
  assert (length (take m1 s) = m1) as Hlen1 by (rewrite length_take; lia).
  destruct (drop m1 s) as [|x1 s1] eqn:E1; [done|].
  destruct (Ascii.eqb_spec "@" x1) as [<-|]; [|done].
  destruct (greedy email_char _ s1) as [n2|] eqn:Eg2; [|done].
  injection Hk1 as <-.
  apply greedy_spec in Eg2 as (m2 & j2 & -> & Hm2 & Hl2 & HD & Hk2).
  assert (length (take m2 s1) = m2) as Hlen2 by (rewrite length_take; lia).
  destruct (drop m2 s1) as [|x2 s2] eqn:E2; [done|].
  destruct (Ascii.eqb_spec "." x2) as [<-|]; [|done].
  destruct (greedy az _ s2) as [n3|] eqn:Eg3; [|done].
  injection Hk2 as <-.
  apply greedy_spec in Eg3 as (m3 & j3 & -> & Hm3 & Hl3 & HT & Hk3).
  injection Hk3 as <-.
  assert (s1 = take m2 s1 ++ "." :: s2) as Hs1
    by (by rewrite <- E2, take_drop).
  split.
  - exists (take m1 s), (take m2 s1), (take m3 s2).
    split_and!; try done; try (by apply take_nonempty).
    rewrite take_app_add' by done. f_equal.
    change (S (m2 + S (m3 + 0))) with (1 + (m2 + S (m3 + 0))).
    rewrite Hs1 at 1. simpl. f_equal.
    rewrite take_app_add' by done. f_equal.
    simpl. f_equal. by rewrite Nat.add_0_r.
  - rewrite length_app, Hlen1. simpl.
    apply (f_equal length) in Hs1. rewrite length_app in Hs1. simpl in Hs1.
    lia.
Qed.

Lemma findall_scan_elem fuel re s e :
  e ∈ findall_scan fuel re s ->
  exists a b n, s = a ++ b /\ re_match re b = Some n /\ e = take n b.
Proof.
  revert s. induction fuel as [|fuel IH]; intros s; simpl;
    [by intros ?%elem_of_nil|].
  destruct s as [|x s]; [by intros ?%elem_of_nil|].
  destruct (re_match re (x :: s)) as [[|n]|] eqn:Em.
  - intros [->|He]%elem_of_cons.
    + exists [], (x :: s), 0. done.
    + destruct (IH _ He) as (a & b & n & -> & Hb & ->).
      exists (x :: a), b, n. done.
  - intros [->|He]%elem_of_cons.
    + exists [], (x :: s), (S n). done.
    + destruct (IH _ He) as (a & b & n' & Hs & Hb & ->).
      exists (take (S n) (x :: s) ++ a), b, n'. split; [|done].
      rewrite <- app_assoc, <- Hs. by rewrite take_drop.
  - intros He. destruct (IH _ He) as (a & b & n & -> & Hb & ->).
    exists (x :: a), b, n. done.
Qed.

Lemma findall_email html pos e :
  e ∈ findall EMAIL_RE html pos ->
  email_shaped e /\ exists a b, drop pos html = a ++ e ++ b.
Proof.
  unfold findall. intros (a & b & n & Hs & Hm & ->)%findall_scan_elem.
  apply re_match_email in Hm as [Hshape Hlen]. split; [done|].
  exists a, (drop n b). by rewrite take_drop.
Qed.

Lemma email_char_not_upper c : email_char c = true -> is_upper c = false.
Proof. destruct c as [[] [] [] [] [] [] [] []]; vm_compute; congruence. Qed.

Lemma az_email_char c : az c = true -> email_char c = true.
Proof. unfold email_char, az. by intros ->. Qed.

Lemma email_shaped_lower e : email_shaped e -> existsb is_upper e = false.
Proof.
  intros (L & D & T & -> & _ & _ & _ & HL & HD & HT).
  assert (forall s, forallb email_char s = true -> existsb is_upper s = false)
    as Hno.
  { induction s as [|c s IH]; simpl; [done|].
    intros [Hc Hs]%andb_true_iff. by rewrite (email_char_not_upper c), IH. }
  rewrite existsb_app. simpl. rewrite existsb_app. simpl.
  rewrite !Hno; try done.
  clear -HT. induction T as [|c T IH]; simpl in *; [done|].
  apply andb_true_iff in HT as [Hc HT]. by rewrite (az_email_char c), IH.
Qed.

(** X13: what [parse_emails] can find.  Every string that
    EMAIL_RE.findall(html, re.I) returns is a piece of html[2:] (re.I is 2
    and is taken as the start position, not as a flag) of the shape
    local@domain.tld, where local and domain are non-empty and made of
    lower-case letters, digits and ".-+_", and tld is a non-empty run of
    lower-case letters; no upper-case letter is ever part of a result. *)
Theorem findall_finds_addresses (html e : str) :
  e ∈ findall EMAIL_RE html re_I ->
  email_shaped e /\ existsb is_upper e = false
  /\ exists a b, drop 2 html = a ++ e ++ b.
Proof.
  intros [Hs Hd]%findall_email. split; [done|].
  split; [by apply email_shaped_lower|done].
Qed.

Lemma findall_finds_addresses_witness :
  py "info@example.com"
  ∈ findall EMAIL_RE (py "to Info@Example.COM, info@example.com.") re_I
  /\ email_shaped (py "info@example.com").
Proof.
  split; [apply (bool_decide_unpack _); vm_compute; exact I|].
  apply (findall_finds_addresses
           (py "to Info@Example.COM, info@example.com.")
           (py "info@example.com")).
  apply (bool_decide_unpack _). vm_compute. exact I.
Defined.

(** ** download_and_parse *)

(** X14: what [download_and_parse] hands back.  When it returns, it
    returns a list, never None: the empty list, with the frontier
    untouched, when the request failed, and otherwise the addresses EMAIL_RE
    finds in the text, each of the shape local@domain.tld.  A failed request
    never comes out as an exception; what the function raises is the
    exception of the bs4 import, that of BeautifulSoup on the text of the
    answer, or the ValueError of urlparse from a link it passes to add_url. *)
Theorem download_and_parse_outcome
  (env : modules) (url : str) (uc : UrlCollection) :
  match download_and_parse env url uc with
  | (Ok v, uc') =>
      (exists l, v = PList l /\ forall e, e ∈ l -> email_shaped e)
      /\ (requests_get env url = None -> v = PList [] /\ uc' = uc)
  | (Raise e, _) =>
      bs4 env = Raise e
      \/ exists text, requests_get env url = Some text
           /\ (BeautifulSoup env text = Raise e
               \/ exists hrefs, BeautifulSoup env text = Ok hrefs
                    /\ e = ValueError)
  end.
Proof.
  unfold download_and_parse. destruct (bs4 env) as [[]|e0]; [|by left].
  destruct (requests_get env url) as [text|] eqn:Er.
  - destruct (BeautifulSoup env text) as [hrefs|e0] eqn:Eb; [|right; eauto].
    destruct (add_urls (Some <$> hrefs) uc) as [[[]|e] uc'] eqn:E.
    + split; [|done]. eexists. split; [done|].
      intros e He. by apply findall_email in He as [? _].
    + right. exists text. split; [done|]. right. exists hrefs.
      split; [done|]. by eapply add_urls_raise.
  - split; [|done]. exists []. split; [done|]. by intros e ?%elem_of_nil.
Qed.

Lemma download_and_parse_outcome_witness :
  download_and_parse offline (py "http://example.com/") example_uc
  = (Ok (PList []), example_uc).
Proof.
  pose proof (download_and_parse_outcome
                offline (py "http://example.com/") example_uc) as H.
  destruct (download_and_parse _ _ _) as [[v|e] uc'] eqn:E.
  - destruct H as [_ H]. by destruct (H eq_refl) as [-> ->].
  - vm_compute in E. discriminate E.
Defined.

(** With both modules at work the link of the text is admitted and its
    address, which begins with a capital, is found from its third character
    on; without lxml the call raises and the frontier is as before. *)
Example download_and_parse_examples :
  download_and_parse one_text (py "http://example.com/") example_uc
  = (Ok (PList [py "nfo@example.com"]),
     {| root := py "example.com"; base_url := py "http://example.com";
        seen_urls := {[ py "http://example.com" ]}
                     ∪ {[ py "http://example.com/about" ]};
        work_urls := {[ py "http://example.com" ]}
                     ∪ {[ py "http://example.com/about" ]};
        emails := ∅ |})
  /\ download_and_parse no_lxml (py "http://example.com/") example_uc
     = (Raise FeatureNotFound, example_uc).
Proof. split; vm_compute; reflexivity. Qed.

(** ** The seed *)

Lemma contains_lower_bracket (c : ascii) (s : str) :
  (c = "[" \/ c = "]") -> contains c (lower s) = contains c s.
Proof.
  intros Hc. induction s as [|x s IH]; [done|].
  change (lower (x :: s)) with (lower_char x :: lower s).
  rewrite !contains_cons, IH. f_equal.
  destruct Hc as [-> | ->]; destruct x as [[] [] [] [] [] [] [] []]; reflexivity.
Qed.

Lemma contains_lstrip c s : contains c s = false -> contains c (lstrip s) = false.
Proof.
  induction s as [|x s IH]; simpl; [done|]. rewrite contains_cons.
  intros [Hx Hs]%orb_false_iff. destruct (is_space x); [auto|].
  by rewrite contains_cons, Hx, Hs.
Qed.

Lemma contains_rev c s : contains c (rev s) = contains c s.
Proof.
  induction s as [|x s IH]; simpl; [done|].
  rewrite contains_app, IH, !contains_cons. unfold contains at 2. simpl.
  rewrite orb_false_r. apply orb_comm.
Qed.

Lemma site_of_bracket_free seed : bracket_free seed -> bracket_free (site_of seed).
Proof.
  assert (forall c, (c = "[" \/ c = "]") -> contains c seed = false ->
                    contains c (site_of seed) = false) as H.
  { intros c Hc Hs. unfold site_of.
    assert (contains c (lower (strip seed)) = false) as Ht.
    { rewrite contains_lower_bracket by done. unfold strip.
      rewrite contains_rev. apply contains_lstrip. rewrite contains_rev.
      by apply contains_lstrip. }
    destruct (startswith _ _); [done|].
    rewrite !contains_app, Ht. by destruct Hc as [-> | ->]. }
  intros [H1 H2]. split; apply H; auto.
Qed.

(** X15: the constructor fails only on square brackets.  For a seed without
    "[" and "]" it builds the frontier, and when it raises, the exception is
    the ValueError of urlparse and the rewritten seed contains a square
    bracket. *)
Theorem init_outcome (seed : str) :
  (bracket_free seed -> exists uc, __init__ seed = Ok uc)
  /\ (forall e, __init__ seed = Raise e ->
        e = ValueError /\ ~ bracket_free (site_of seed)).
Proof.
  split.
  - intros Hb%site_of_bracket_free.
    destruct (urlparse_bracket_free _ Hb) as [p Hp].
    unfold __init__. rewrite Hp. simpl. eauto.
  - intros e. unfold __init__.
    destruct (urlparse (site_of seed)) as [p|e'] eqn:Ep; [done|].
    intros [= <-]. apply urlparse_raise in Ep as [-> Hc]. split; [done|].
    intros [H1 H2]. destruct Hc; congruence.
Qed.

Lemma init_outcome_witness :
  (bracket_free (py " Example.COM ")
   /\ exists uc, __init__ (py " Example.COM ") = Ok uc)
  /\ (__init__ (py "[") = Raise ValueError
      /\ ~ bracket_free (site_of (py "["))).
Proof.
  split.
  - split; [split; vm_compute; reflexivity|].
    apply (proj1 (init_outcome (py " Example.COM "))).
    split; vm_compute; reflexivity.
  - split; [vm_compute; reflexivity|].
    apply (proj2 (init_outcome (py "[")) ValueError).
    vm_compute. reflexivity.
Defined.

Lemma site_of_normal seed :
  lower (site_of seed) = site_of seed
  /\ exists z, site_of seed = py "http" ++ z.
Proof.
  unfold site_of. destruct (startswith _ _) eqn:E.
  - split; [apply lowercase_fix, lower_lowercase|by apply startswith_http].
  - split; [|by eexists]. rewrite !lower_app.
    by rewrite (proj1 (lowercase_fix _) (lower_lowercase _)).
Qed.

(** X16: the seed is inside its own boundary.  For a seed with a host, the
    seed entry, seen as the landing url of its own page, normalizes to a url
    that passes [should_parse], at any later point of the crawl: a seed page
    that does not redirect is never dropped as out of domain. *)
Theorem seed_page_is_parsed
  (web : str -> page) (env : modules)
  (pick : gset str -> nat) (seed : str) (uc0 : UrlCollection)
  (steps : list step) :
  __init__ seed = Ok uc0 -> root uc0 <> [] ->
  let uc := run_steps web env pick steps uc0 in
  exists w, normalize uc (Some (site_of seed)) = Ok (Some w)
    /\ should_parse uc (Some w) = Ok true.
Proof.
  intros Hinit Hroot uc.
  destruct (run_steps_extends web env pick steps uc0) as (Hr & _).
  fold uc in Hr.
  destruct (init_shape _ _ Hinit) as (p & Hp & _ & _ & Hr0 & _).
  destruct (site_of_normal seed) as [Hl Hz].
  pose proof (absolute_fix uc _ Hl Hz) as Ha.
  assert (exists w, normalize uc (Some (site_of seed)) = Ok (Some w))
    as [w Hn].
  { rewrite normalize_of_normal, Hp by done. simpl. eauto. }
  exists w. split; [done|].
  assert (netloc p <> []) as HN by congruence.
  rewrite <- Ha in Hp.
  pose proof (normalize_host _ _ _ _ Hp HN Hn) as Hw.
  destruct (normalize_shape _ _ _ Hn) as (_ & Hzw & _).
  rewrite (should_parse_normal uc w Hzw).
  unfold in_root_domain. rewrite Hw. simpl. f_equal.
  apply endswith_spec. exists []. simpl. congruence.
Qed.

Lemma seed_page_is_parsed_witness :
  __init__ (py "example.com") = Ok example_uc /\ root example_uc <> []
  /\ exists w, normalize example_uc (Some (site_of (py "example.com")))
               = Ok (Some w)
       /\ should_parse example_uc (Some w) = Ok true.
Proof.
  split; [vm_compute; reflexivity|]. split; [done|].
  apply (seed_page_is_parsed web_root offline (fun _ => 0)
           (py "example.com") example_uc [] init_example ltac:(done)).
Defined.
